(** * Context enrichment (notebook 7, "Expanded Content")

    A shallow embedding of the Python code of
    [notebooks/7-ExpandedContent-Week3.ipynb]: [groupby_episode],
    [create_expanded_content], the assignment cell with its length check and
    [join_expanded_content], and the post-check cell.

    Python values are modelled by [pyval], dictionaries by [gmap string pyval],
    exceptions by the error monad [result]. *)

From Stdlib Require Import ZArith String List Lia.
From stdpp Require Import gmap strings list.

Local Open Scope string_scope.
Local Open Scope Z_scope.
Local Open Scope list_scope.

(** ** Python values and exceptions *)

(** The field values the dataset holds: [None], integers and text.  Python's
    [==] on these coincides with structural equality. *)
Inductive pyval : Type :=
  | PNone : pyval
  | PInt : Z → pyval
  | PStr : string → pyval.

#[global] Instance pyval_eq_dec : EqDecision pyval.
Proof. solve_decision. Defined.

(** The exceptions the notebook's code can raise. *)
Inductive exn : Type :=
  | ValueError
  | AssertionError
  | KeyError
  | TypeError
  | NameError.

#[global] Instance exn_eq_dec : EqDecision exn.
Proof. solve_decision. Defined.

Inductive result (A : Type) : Type :=
  | Ok : A → result A
  | Raise : exn → result A.
Arguments Ok {A} _.
Arguments Raise {A} _.

Definition bind {A B} (m : result A) (k : A → result B) : result B :=
  match m with
  | Ok a => k a
  | Raise e => Raise e
  end.

Declare Scope py_scope.
Delimit Scope py_scope with py.
Notation "'let!' x ':=' m 'in' k" := (bind m (λ x, k))
  (at level 10, x name, m at level 100, k at level 200) : py_scope.
Notation "'check!' m 'in' k" := (bind m (λ _, k))
  (at level 10, m at level 100, k at level 200) : py_scope.
Local Open Scope py_scope.

(** [assert c] *)
Definition py_assert (c : bool) : result unit :=
  if c then Ok tt else Raise AssertionError.

(** A list comprehension / [for] loop whose body may raise: elements are
    visited left to right and the first exception aborts the loop. *)
Fixpoint for_each {A B} (f : A → result B) (l : list A) : result (list B) :=
  match l with
  | [] => Ok []
  | x :: l' =>
      let! y := f x in
      let! ys := for_each f l' in
      Ok (y :: ys)
  end.

(** A record of the dataset is a [dict] with string keys. *)
Abbreviation record := (gmap string pyval).

(** [d[k]] *)
Definition getitem (d : record) (k : string) : result pyval :=
  match d !! k with
  | Some v => Ok v
  | None => Raise KeyError
  end.

(** [d.get(k, dflt)] *)
Definition dict_get (d : record) (k : string) (dflt : pyval) : pyval :=
  match d !! k with
  | Some v => v
  | None => dflt
  end.

(** ** Sequence primitives *)

(** Normalisation of one slice bound against a sequence of length [n]:
    negative bounds count from the end, everything is clamped to [0, n]. *)
Definition slice_bound (n i : Z) : Z :=
  if i <? 0 then Z.max 0 (i + n) else Z.min i n.

(** [l[start:stop]] *)
Definition py_slice {A} (l : list A) (start stop : Z) : list A :=
  let n := Z.of_nat (length l) in
  let s := slice_bound n start in
  let e := slice_bound n stop in
  take (Z.to_nat (e - s)) (drop (Z.to_nat s) l).

(** Concatenation of strings with a separator between consecutive ones. *)
Fixpoint join_strings (sep : string) (l : list string) : string :=
  match l with
  | [] => ""
  | [s] => s
  | s :: l' => (s ++ sep ++ join_strings sep l')%string
  end.

(** The items of a sequence as text; [str.join] raises [TypeError] on the
    first item that is not a [str]. *)
Definition as_str (v : pyval) : result string :=
  match v with
  | PStr s => Ok s
  | _ => Raise TypeError
  end.

(** [sep.join(l)] *)
Definition py_join (sep : string) (l : list pyval) : result string :=
  let! ss := for_each as_str l in
  Ok (join_strings sep ss).

(** ** [itertools.groupby] *)

(** The iterator keeps the key of the group being produced ([tgtkey]) and
    compares the key of every next element with it; a new group starts when
    they differ.  [group] is the group collected so far. *)
Fixpoint groupby_from {A} (keyfn : A → result pyval) (tgtkey : pyval)
    (group : list A) (rest : list A) : result (list (pyval * list A)) :=
  match rest with
  | [] => Ok [(tgtkey, group)]
  | x :: rest' =>
      let! currkey := keyfn x in
      if decide (currkey = tgtkey)
      then groupby_from keyfn tgtkey (group ++ [x]) rest'
      else
        let! gs := groupby_from keyfn currkey [x] rest' in
        Ok ((tgtkey, group) :: gs)
  end.

Definition groupby {A} (keyfn : A → result pyval) (l : list A)
    : result (list (pyval * list A)) :=
  match l with
  | [] => Ok []
  | x :: rest =>
      let! k := keyfn x in
      groupby_from keyfn k [x] rest
  end.

(** ** The notebook's functions *)

Definition default_key_field : string := "video_id".
Definition default_window_size : Z := 1.
Definition default_num_episodes : Z := 193.

(** [groupby_episode(data, key_field)] *)
Definition groupby_episode (data : list record) (key_field : string)
    : result (list (list record)) :=
  let! gs := groupby (λ x, getitem x key_field) data in
  Ok (snd <$> gs).

(** Truth value of an optional list argument: [None] and [[]] are false. *)
Definition truthy {A} (o : option (list A)) : bool :=
  match o with
  | Some (_ :: _) => true
  | _ => false
  end.

(** The inner loop [for i, chunk in enumerate(episode)], started at index
    [i] with [todo] the items still to visit. *)
Fixpoint expand_from (episode : list pyval) (window_size : Z) (i : Z)
    (todo : list pyval) : result (list string) :=
  match todo with
  | [] => Ok []
  | chunk :: todo' =>
      let start := Z.max 0 (i - window_size) in
      let end_ := i + window_size + 1 in
      let! expanded_content := py_join " " (py_slice episode start end_) in
      let! episode_container := expand_from episode window_size (i + 1) todo' in
      Ok (expanded_content :: episode_container)
  end.

Definition expand_episode (window_size : Z) (episode : list pyval)
    : result (list string) :=
  expand_from episode window_size 0 episode.

(** [create_expanded_content(data, chunk_list, window_size, num_episodes,
    key_field)] *)
Definition create_expanded_content (data : option (list record))
    (chunk_list : option (list (list pyval))) (window_size : Z)
    (num_episodes : Z) (key_field : string) : result (list (list string)) :=
  if negb (truthy data) && negb (truthy chunk_list) then Raise ValueError
  else
    let! chunk_list' :=
      (if truthy data then
         let! episodes := groupby_episode (default [] data) key_field in
         check! py_assert (Z.of_nat (length episodes) =? num_episodes) in
         for_each (λ alist, for_each (λ d, getitem d "content") alist) episodes
       else Ok (default [] chunk_list)) in
    for_each (expand_episode window_size) chunk_list'.

(** ** The assignment cell and the post-check cell *)

(** What the notebook's global names can hold. *)
Inductive gobj : Type :=
  | GNone : gobj
  | GInt : Z → gobj
  | GRecords : list record → gobj
  | GStrings : list string → gobj
  | GNested : list (list string) → gobj.

#[global] Instance gobj_eq_dec : EqDecision gobj.
Proof. solve_decision. Defined.

(** The global namespace of the kernel. *)
Abbreviation namespace := (gmap string gobj).

(** Reading a global name. *)
Definition load (ns : namespace) (name : string) : result gobj :=
  match ns !! name with
  | Some v => Ok v
  | None => Raise NameError
  end.

(** [len(x)] *)
Definition py_len (x : gobj) : result Z :=
  match x with
  | GRecords l => Ok (Z.of_nat (length l))
  | GStrings l => Ok (Z.of_nat (length l))
  | GNested l => Ok (Z.of_nat (length l))
  | GNone | GInt _ => Raise TypeError
  end.

(** The "azimuth check" of the assignment cell:
<<
    flat_length = len(flattened_content)
    data_legnth = len(data)
    assert flat_length == data_length, 'Mismatch in lengths. ...'
>>
    The names are kept as the cell spells them. *)
Definition azimuth_check (ns : namespace) : result namespace :=
  let! flattened_content := load ns "flattened_content" in
  let! n := py_len flattened_content in
  let ns := <["flat_length" := GInt n]> ns in
  let! data := load ns "data" in
  let! m := py_len data in
  let ns := <["data_legnth" := GInt m]> ns in
  let! flat_length := load ns "flat_length" in
  let! data_length := load ns "data_length" in
  check! py_assert (bool_decide (flat_length = data_length)) in
  Ok ns.

(** [join_expanded_content(data, flattened_content)]: between the docstring
    and [return data] the cell has no statement. *)
Definition join_expanded_content {D F : Type} (data : D)
    (flattened_content : F) : D :=
  data.

(** The post-check cell:
    [for d in data: assert d.get('expanded_content', -1) != -1]. *)
Definition post_check (data : list record) : result unit :=
  check! for_each
    (λ d, py_assert
            (negb (bool_decide
                     (dict_get d "expanded_content" (PInt (-1)) = PInt (-1)))))
    data in
  Ok tt.

(** The assignment cell as a whole, run in the namespace [ns]. *)
Definition assignment_cell (ns : namespace) : result namespace :=
  let! expanded_content :=
    create_expanded_content None None default_window_size
      default_num_episodes default_key_field in
  let ns := <["expanded_content" := GNested expanded_content]> ns in
  let ns := <["flattened_content" := GNone]> ns in
  let! ns := azimuth_check ns in
  let data := join_expanded_content GNone GNone in
  Ok (<["data" := data]> ns).

(** ** Vocabulary of the specification *)

(** First and last position of the window of radius [w] around position [i]
    in a group of [n] records. *)
Definition window_lo (i w : Z) : Z := Z.max 0 (i - w).
Definition window_hi (n i w : Z) : Z := Z.min (n - 1) (i + w).

(** The content values at positions [lo], [lo+1], ..., [hi] of a group, in
    ascending position order. *)
Definition window_contents (g : list string) (lo hi : Z) : list string :=
  omap (λ k, g !! k) (seq (Z.to_nat lo) (Z.to_nat (hi - lo + 1))).

(** The window text the specification asks for at position [i]. *)
Definition window_text (g : list string) (w : Z) (i : nat) : string :=
  join_strings " "
    (window_contents g (window_lo (Z.of_nat i) w)
       (window_hi (Z.of_nat (length g)) (Z.of_nat i) w)).

(** A chunk list of text, as the Python values the function receives. *)
Definition text_chunks (chunk_list : list (list string)) : list (list pyval) :=
  fmap (M:=list) (fmap (M:=list) PStr) chunk_list.

(** A record carries the grouping key. *)
Definition has_key (key : string) (d : record) : Prop := is_Some (d !! key).

(** [g] is a run for the key value [k]: not empty, all records carry [k]. *)
Definition is_run (key : string) (kg : pyval * list record) : Prop :=
  kg.2 ≠ [] ∧ Forall (λ d, d !! key = Some kg.1) kg.2.

(** No two consecutive entries are equal. *)
Fixpoint adjacent_distinct (ks : list pyval) : Prop :=
  match ks with
  | k1 :: ((k2 :: _) as ks') => k1 ≠ k2 ∧ adjacent_distinct ks'
  | _ => True
  end.

(** [runs] are maximal runs of equal keys: every entry is a run of its key
    and consecutive runs have different keys. *)
Definition maximal_runs (key : string) (runs : list (pyval * list record))
    : Prop :=
  Forall (is_run key) runs ∧ adjacent_distinct (runs.*1).

#[global] Instance has_key_dec key d : Decision (has_key key d).
Proof. unfold has_key. apply _. Defined.

#[global] Instance is_run_dec key kg : Decision (is_run key kg).
Proof. unfold is_run. apply _. Defined.

#[global] Instance adjacent_distinct_dec ks : Decision (adjacent_distinct ks).
Proof.
  induction ks as [|k1 [|k2 ks] IH]; simpl; [apply _..|].
  simpl in IH. apply _.
Defined.

#[global] Instance maximal_runs_dec key runs : Decision (maximal_runs key runs).
Proof. unfold maximal_runs. apply _. Defined.

(** The pipeline after the episode-count check: content extraction and the
    window loop. *)
Definition expand_groups (window_size : Z) (episodes : list (list record))
    : result (list (list string)) :=
  let! chunk_list :=
    for_each (λ alist, for_each (λ d, getitem d "content") alist) episodes in
  for_each (expand_episode window_size) chunk_list.

(** ** The identifier cache of the collection update *)

#[global] Instance pyval_countable : Countable pyval.
Proof.
  refine (inj_countable'
    (λ v, match v with
          | PNone => inl ()
          | PInt z => inr (inl z)
          | PStr s => inr (inr s)
          end)
    (λ x, match x with
          | inl _ => PNone
          | inr (inl z) => PInt z
          | inr (inr s) => PStr s
          end) _).
  by intros [].
Defined.

(** An object read from the collection: its properties and its uuid. *)
Record item : Type := Item {
  item_properties : record;
  item_uuid : string
}.

(** The dict comprehension
    [{item.properties['doc_id']: item.uuid for item in collection.iterator()}],
    started from the entries collected so far: items are visited in order
    and a later item replaces the entry of an earlier one with the same
    [doc_id]. *)
Fixpoint doc_id_cache_from (cache : gmap pyval string) (items : list item)
    : result (gmap pyval string) :=
  match items with
  | [] => Ok cache
  | it :: rest =>
      let! doc_id := getitem (item_properties it) "doc_id" in
      doc_id_cache_from (<[doc_id := item_uuid it]> cache) rest
  end.

Definition doc_id_cache (items : list item) : result (gmap pyval string) :=
  doc_id_cache_from ∅ items.

(** ** Sample data *)

(** A record of episode [k] with content [c]. *)
Definition chunk_record (k : pyval) (c : string) : record :=
  {[ "video_id" := k; "content" := PStr c ]}.

(** [n] episodes of one chunk each, numbered from 0. *)
Definition single_chunk_runs (n : nat) : list (pyval * list record) :=
  (λ i, (PInt i, [chunk_record (PInt i) "x"])) <$> seqZ 0 (Z.of_nat n).

(** ** The error monad *)

Section for_each_facts.
Context {A B : Type}.
Implicit Types (f : A → result B) (l : list A).

Lemma for_each_ok_length f l out :
  for_each f l = Ok out → length out = length l.
Proof.
  revert out. induction l as [|x l IH]; intros out; simpl.
  - by intros [= <-].
  - destruct (f x) as [y|e]; simpl; [|done].
    destruct (for_each f l) as [ys|e]; simpl; [|done].
    intros [= <-]. simpl. by rewrite (IH ys).
Qed.

Lemma for_each_fmap_ok f (g : A → B) l :
  (∀ x, x ∈ l → f x = Ok (g x)) → for_each f l = Ok (g <$> l).
Proof.
  induction l as [|x l IH]; intros Hf; simpl; [done|].
  rewrite Hf by left. simpl.
  rewrite IH; [done|]. intros y Hy. apply Hf. by right.
Qed.

Lemma for_each_raise f l e :
  for_each f l = Raise e → ∃ x, x ∈ l ∧ f x = Raise e.
Proof.
  induction l as [|x l IH]; simpl; [done|].
  destruct (f x) as [y|e'] eqn:Hx; simpl.
  - destruct (for_each f l) as [ys|e'']; simpl; [done|].
    intros [= ->]. destruct IH as (z & Hz & Hfz); [done|].
    exists z. split; [by right|done].
  - intros [= ->]. exists x. split; [by left|done].
Qed.
End for_each_facts.

(** ** Slices and joins *)

Lemma omap_lookup_seq {A} (g : list A) (a c : nat) :
  (a + c ≤ length g)%nat →
  omap (λ k, g !! k) (seq a c) = take c (drop a g).
Proof.
  revert a. induction c as [|c IH]; intros a Hlen; simpl; [done|].
  destruct (lookup_lt_is_Some_2 g a) as [x Hx]; [lia|].
  rewrite Hx, (drop_S _ _ _ Hx). simpl. f_equal. apply IH. lia.
Qed.

Lemma py_slice_fmap {A B} (f : A → B) (l : list A) (s e : Z) :
  py_slice (f <$> l) s e = f <$> py_slice l s e.
Proof.
  unfold py_slice. rewrite length_fmap.
  by rewrite fmap_take, fmap_drop.
Qed.

Lemma py_join_strings (sep : string) (l : list string) :
  py_join sep (PStr <$> l) = Ok (join_strings sep l).
Proof.
  unfold py_join.
  rewrite (for_each_fmap_ok as_str (λ v, match v with PStr s => s | _ => "" end)).
  - simpl. do 2 f_equal. rewrite <- list_fmap_compose.
    induction l as [|s l IH]; simpl; [done|]. by f_equal.
  - intros x [s [-> _]]%list_elem_of_fmap. done.
Qed.

(** For a non-negative radius the slice the loop takes is the clamped
    window of the specification. *)
Lemma py_slice_window (g : list string) (w : Z) (i : nat) :
  0 ≤ w → (i < length g)%nat →
  py_slice g (Z.max 0 (Z.of_nat i - w)) (Z.of_nat i + w + 1) =
  window_contents g (window_lo (Z.of_nat i) w)
    (window_hi (Z.of_nat (length g)) (Z.of_nat i) w).
Proof.
  intros Hw Hi. unfold py_slice, window_contents, window_lo, window_hi, slice_bound.
  destruct (Z.ltb_spec (Z.max 0 (Z.of_nat i - w)) 0) as [?|_]; [lia|].
  destruct (Z.ltb_spec (Z.of_nat i + w + 1) 0) as [?|_]; [lia|].
  rewrite omap_lookup_seq by lia.
  f_equal; [|f_equal]; lia.
Qed.

Lemma expand_from_strings (g : list string) (w : Z) :
  0 ≤ w → ∀ (todo : list string) (i : nat),
  drop i g = todo →
  expand_from (PStr <$> g) w (Z.of_nat i) (PStr <$> todo) =
  Ok (window_text g w <$> seq i (length todo)).
Proof.
  intros Hw todo. induction todo as [|x todo IH]; intros i Hdrop; simpl; [done|].
  assert (i < length g)%nat as Hi.
  { apply Nat.nle_gt. intros Hge. rewrite drop_ge in Hdrop by lia. done. }
  rewrite py_slice_fmap, py_join_strings, py_slice_window by done. simpl.
  fold (window_text g w i).
  replace (Z.of_nat i + 1) with (Z.of_nat (S i)) by lia.
  rewrite IH; [done|].
  rewrite <- (Nat.add_1_r i), <- drop_drop, Hdrop. done.
Qed.

Lemma expand_episode_strings (g : list string) (w : Z) :
  0 ≤ w →
  expand_episode w (PStr <$> g) = Ok (window_text g w <$> seq 0 (length g)).
Proof.
  intros Hw. unfold expand_episode.
  by apply (expand_from_strings g w Hw g 0%nat).
Qed.

(** ** Concatenation of groups *)

Lemma concat_mjoin {A} (ls : list (list A)) : concat ls = mjoin ls.
Proof. induction ls as [|l ls IH]; simpl; [done|]. by rewrite IH. Qed.

Lemma concat_length_sum {A} (ls : list (list A)) :
  sum_list (length <$> ls) = length (concat ls).
Proof. by rewrite concat_mjoin, length_join. Qed.

(** A group is the segment of the concatenation that starts after the
    groups before it. *)
Lemma concat_segment {A} (ls : list (list A)) (j : nat) (g : list A) :
  ls !! j = Some g →
  g = take (length g) (drop (sum_list (length <$> take j ls)) (concat ls)).
Proof.
  intros Hj. rewrite concat_length_sum.
  remember (take j ls) as before eqn:Hbefore.
  rewrite <- (take_drop_middle ls j g Hj), <- Hbefore.
  rewrite concat_app. simpl.
  by rewrite drop_app_length, take_app_length.
Qed.

Lemma concat_lookup_group {A} (ls : list (list A)) (j i : nat) (g : list A) :
  ls !! j = Some g → (i < length g)%nat →
  concat ls !! (sum_list (length <$> take j ls) + i)%nat = g !! i.
Proof.
  intros Hj Hi. rewrite <- lookup_drop.
  rewrite <- (lookup_take_lt _ (length g)) by done.
  by rewrite <- (concat_segment ls j g Hj).
Qed.

(** ** [itertools.groupby] produces the maximal runs *)

Section grouping.
Variable key : string.
Implicit Types (d x : record) (k tgtkey : pyval).

Lemma getitem_has_key (d : record) :
  has_key key d → ∃ k, d !! key = Some k ∧ getitem d key = Ok k.
Proof. intros [k Hk]. exists k. unfold getitem. by rewrite Hk. Qed.

Lemma groupby_from_total (rest : list record) :
  Forall (has_key key) rest →
  ∀ tgtkey group, ∃ gs, groupby_from (λ x, getitem x key) tgtkey group rest = Ok gs.
Proof.
  induction 1 as [|x rest Hx _ IH]; intros tgtkey group; simpl; [eauto|].
  destruct (getitem_has_key x Hx) as (k & _ & Hk).
  rewrite Hk. simpl.
  destruct (decide (k = tgtkey)) as [->|Hne]; [apply IH|].
  destruct (IH k [x]) as [gs Hgs]. rewrite Hgs. simpl. eauto.
Qed.

Lemma groupby_from_runs (rest : list record) :
  ∀ tgtkey group gs,
  group ≠ [] → Forall (λ d, d !! key = Some tgtkey) group →
  groupby_from (λ x, getitem x key) tgtkey group rest = Ok gs →
  concat (gs.*2) = group ++ rest ∧ Forall (is_run key) gs ∧
  adjacent_distinct (gs.*1) ∧ head (gs.*1) = Some tgtkey.
Proof.
  induction rest as [|x rest IH]; intros tgtkey group gs Hne Hgroup; simpl.
  - intros [= <-]. simpl. rewrite !app_nil_r. repeat split; [|done..].
    by repeat constructor.
  - unfold getitem at 1. destruct (x !! key) as [k|] eqn:Hk; simpl; [|done].
    destruct (decide (k = tgtkey)) as [->|Hdiff].
    + intros Hgs. apply IH in Hgs as (Hcat & Hruns & Hadj & Hhd).
      * rewrite Hcat, <- app_assoc. done.
      * by destruct group.
      * apply Forall_app. split; [done|]. by constructor.
    + destruct (groupby_from (λ x, getitem x key) k [x] rest) as [gs'|e] eqn:Hgs'; simpl; [|done].
      intros [= <-]. apply IH in Hgs' as (Hcat & Hruns & Hadj & Hhd);
        [|done|by repeat constructor].
      split; [|split; [|split]].
      * change (group ++ concat (gs'.*2) = group ++ x :: rest).
        by rewrite Hcat.
      * by constructor.
      * change (adjacent_distinct (tgtkey :: gs'.*1)).
        destruct (gs'.*1) as [|k' ks]; [done|].
        simpl in Hhd. injection Hhd as ->. split; [congruence|done].
      * done.
Qed.

Lemma groupby_runs (data : list record) :
  Forall (has_key key) data →
  ∃ runs, groupby (λ x, getitem x key) data = Ok runs ∧ concat (runs.*2) = data ∧
          maximal_runs key runs.
Proof.
  intros Hdata. destruct Hdata as [|x rest Hx Hrest]; simpl.
  - exists []. repeat split; constructor.
  - destruct (getitem_has_key x Hx) as (k & Hxk & Hk).
    rewrite Hk. simpl.
    destruct (groupby_from_total rest Hrest k [x]) as [gs Hgs].
    exists gs. split; [done|].
    apply groupby_from_runs in Hgs as (Hcat & Hruns & Hadj & _);
      [|done|by repeat constructor].
    done.
Qed.

(** Conversely, the maximal runs of a sequence are what [groupby] returns
    on their concatenation. *)
Lemma groupby_from_same_key (k : pyval) (g : list record) :
  Forall (λ d, d !! key = Some k) g →
  ∀ group rest,
  groupby_from (λ x, getitem x key) k group (g ++ rest) =
  groupby_from (λ x, getitem x key) k (group ++ g) rest.
Proof.
  induction 1 as [|x g Hx _ IH]; intros group rest; simpl.
  - by rewrite app_nil_r.
  - unfold getitem at 1. rewrite Hx. simpl.
    rewrite decide_True by done. rewrite IH, <- app_assoc. done.
Qed.

Lemma groupby_from_concat_runs (runs : list (pyval * list record)) :
  Forall (is_run key) runs →
  ∀ tgtkey group, adjacent_distinct (tgtkey :: runs.*1) →
  groupby_from (λ x, getitem x key) tgtkey group (concat (runs.*2)) =
  Ok ((tgtkey, group) :: runs).
Proof.
  induction 1 as [|[k g] runs [Hne Hg] _ IH]; intros tgtkey group Hadj;
    simpl in *; [done|].
  destruct Hadj as [Hdiff Hadj].
  destruct g as [|x g]; [done|]. simpl.
  apply Forall_cons in Hg as [Hx Hg].
  unfold getitem at 1. rewrite Hx. simpl.
  rewrite decide_False by done.
  rewrite (groupby_from_same_key k g Hg), (IH k _ Hadj). done.
Qed.

Lemma groupby_concat_runs (runs : list (pyval * list record)) :
  maximal_runs key runs → groupby (λ x, getitem x key) (concat (runs.*2)) = Ok runs.
Proof.
  intros [Hruns Hadj]. destruct Hruns as [|[k g] runs [Hne Hg] Hruns];
    simpl in *; [done|].
  destruct g as [|x g]; [done|]. simpl.
  apply Forall_cons in Hg as [Hx Hg].
  unfold getitem at 1. rewrite Hx. simpl.
  rewrite (groupby_from_same_key k g Hg).
  destruct runs as [|[k' g'] runs']; [done|].
  rewrite (groupby_from_concat_runs _ Hruns k); [done|].
  simpl in *. done.
Qed.
End grouping.

(** ** [groupby_episode] *)

Lemma groupby_episode_runs (data : list record) (key : string) :
  Forall (has_key key) data →
  ∃ runs, groupby_episode data key = Ok (runs.*2) ∧ concat (runs.*2) = data ∧
          maximal_runs key runs.
Proof.
  intros Hdata. destruct (groupby_runs key data Hdata) as (runs & Hg & Hcat & Hmax).
  exists runs. unfold groupby_episode. by rewrite Hg.
Qed.

Lemma groupby_episode_concat_runs (runs : list (pyval * list record))
    (key : string) :
  maximal_runs key runs → groupby_episode (concat (runs.*2)) key = Ok (runs.*2).
Proof.
  intros Hmax. unfold groupby_episode. by rewrite groupby_concat_runs.
Qed.

Lemma maximal_runs_has_key (runs : list (pyval * list record)) (key : string) :
  maximal_runs key runs → Forall (has_key key) (concat (runs.*2)).
Proof.
  intros [Hruns _]. induction Hruns as [|[k g] runs [_ Hg] _ IH]; simpl; [done|].
  apply Forall_app. split; [|done].
  eapply Forall_impl; [exact Hg|]. intros d Hd. by exists k.
Qed.

Lemma runs_nonempty (runs : list (pyval * list record)) (key : string) :
  Forall (is_run key) runs → Forall (λ g, g ≠ []) (runs.*2).
Proof.
  intros Hruns. apply Forall_fmap. eapply Forall_impl; [exact Hruns|].
  by intros [k g] [Hne _].
Qed.

(** The Grouper returns exactly on the inputs whose records all carry the
    key; otherwise it raises [KeyError]. *)
Lemma groupby_from_ok_has_key (key : string) (rest : list record) :
  ∀ tgtkey group gs,
  groupby_from (λ x, getitem x key) tgtkey group rest = Ok gs →
  Forall (has_key key) rest.
Proof.
  induction rest as [|x rest IH]; intros tgtkey group gs; simpl; [done|].
  unfold getitem at 1. destruct (x !! key) as [k|] eqn:Hk; simpl; [|done].
  intros Hgs. constructor; [by exists k|].
  destruct (decide (k = tgtkey)); [by eapply IH|].
  destruct (groupby_from _ k [x] rest) as [gs'|e] eqn:Hgs'; [|done].
  by eapply IH.
Qed.

Lemma groupby_episode_returns_iff (data : list record) (key : string) :
  (∃ episodes, groupby_episode data key = Ok episodes)
  ↔ Forall (has_key key) data.
Proof.
  split.
  - intros [episodes Hg]. unfold groupby_episode, groupby in Hg.
    destruct data as [|x rest]; [done|].
    unfold getitem at 1 in Hg. destruct (x !! key) as [k|] eqn:Hk; [|done].
    simpl in Hg. constructor; [by exists k|].
    destruct (groupby_from _ k [x] rest) as [gs|e] eqn:Hgs; [|done].
    by eapply groupby_from_ok_has_key.
  - intros Hdata.
    destruct (groupby_episode_runs data key Hdata) as (runs & Hg & _).
    by exists (runs.*2).
Qed.

(** The group that holds a given position of the input. *)
Lemma run_of_position (runs : list (pyval * list record)) (key : string)
    (p : nat) (d : record) (k : pyval) :
  Forall (is_run key) runs →
  concat (runs.*2) !! p = Some d → d !! key = Some k →
  ∃ j g i, runs !! j = Some (k, g) ∧ g !! i = Some d ∧
           p = (sum_list (length <$> take j (runs.*2)) + i)%nat.
Proof.
  intros Hruns Hp Hk. rewrite concat_mjoin in Hp.
  apply join_lookup_Some in Hp as (j & g & i & Hj & Hi & ->).
  apply list_lookup_fmap_Some in Hj as ([k' g'] & Hg' & Hj).
  simpl in Hg'. subst g'.
  exists j, g, i. split; [|done].
  pose proof (Forall_lookup_1 _ _ _ _ Hruns Hj) as [_ Hg]. simpl in Hg.
  pose proof (Forall_lookup_1 _ _ _ _ Hg Hi) as Hd. simpl in Hd.
  congruence.
Qed.

(** ** Which exception comes from where *)

Lemma getitem_raise (d : record) (k : string) (e : exn) :
  getitem d k = Raise e → e = KeyError.
Proof. unfold getitem. destruct (d !! k); [done|]. by intros [= <-]. Qed.

Lemma groupby_from_raise (key : string) (rest : list record) (e : exn) :
  ∀ tgtkey group,
  groupby_from (λ x, getitem x key) tgtkey group rest = Raise e → e = KeyError.
Proof.
  induction rest as [|x rest IH]; intros tgtkey group; simpl; [done|].
  destruct (getitem x key) as [k|e'] eqn:Hk; simpl.
  - destruct (decide (k = tgtkey)); [apply IH|].
    destruct (groupby_from _ k [x] rest) as [gs|e''] eqn:Hgs; simpl; [done|].
    intros [= ->]. by eapply IH.
  - intros [= ->]. by eapply getitem_raise.
Qed.

Lemma groupby_episode_raise (data : list record) (key : string) (e : exn) :
  groupby_episode data key = Raise e → e = KeyError.
Proof.
  unfold groupby_episode, groupby. destruct data as [|x rest]; simpl; [done|].
  destruct (getitem x key) as [k|e'] eqn:Hk; simpl.
  - destruct (groupby_from _ k [x] rest) as [gs|e''] eqn:Hgs; simpl; [done|].
    intros [= ->]. by eapply groupby_from_raise.
  - intros [= ->]. by eapply getitem_raise.
Qed.

Lemma py_join_raise (sep : string) (l : list pyval) (e : exn) :
  py_join sep l = Raise e → e = TypeError.
Proof.
  unfold py_join. destruct (for_each as_str l) as [ss|e'] eqn:Hss; simpl; [done|].
  intros [= ->]. apply for_each_raise in Hss as (v & _ & Hv).
  destruct v; simpl in Hv; congruence.
Qed.

Lemma expand_from_raise (episode : list pyval) (w : Z) (e : exn) :
  ∀ todo i, expand_from episode w i todo = Raise e → e = TypeError.
Proof.
  induction todo as [|chunk todo IH]; intros i; simpl; [done|].
  destruct (py_join _ _) as [s|e'] eqn:Hs; simpl.
  - destruct (expand_from episode w (i + 1) todo) as [r|e''] eqn:Hr; simpl; [done|].
    intros [= ->]. by eapply IH.
  - intros [= ->]. by eapply py_join_raise.
Qed.

Lemma expand_all_raise (w : Z) (chunk_list : list (list pyval)) (e : exn) :
  for_each (expand_episode w) chunk_list = Raise e → e = TypeError.
Proof.
  intros (episode & _ & He)%for_each_raise. by eapply expand_from_raise.
Qed.

Lemma expand_groups_raise (w : Z) (episodes : list (list record)) (e : exn) :
  expand_groups w episodes = Raise e → e = KeyError ∨ e = TypeError.
Proof.
  unfold expand_groups.
  destruct (for_each _ episodes) as [chunk_list|e'] eqn:Hc; simpl.
  - right. by eapply expand_all_raise.
  - intros [= ->]. left.
    apply for_each_raise in Hc as (alist & _ & (d & _ & Hd)%for_each_raise).
    by eapply getitem_raise.
Qed.

(** ** The two input paths of [create_expanded_content] *)

Lemma create_from_data (d : record) (ds : list record)
    (chunk_list : option (list (list pyval))) (w ne : Z) (key : string) :
  create_expanded_content (Some (d :: ds)) chunk_list w ne key =
  (let! episodes := groupby_episode (d :: ds) key in
   check! py_assert (Z.of_nat (length episodes) =? ne) in
   expand_groups w episodes).
Proof.
  unfold create_expanded_content, expand_groups.
  cbn [truthy negb andb default from_option id].
  destruct (groupby_episode (d :: ds) key) as [episodes|e]; cbn [bind]; [|done].
  by destruct (py_assert _) as [[]|].
Qed.

Lemma create_from_chunks (data : option (list record))
    (episode : list pyval) (chunk_list : list (list pyval))
    (w ne : Z) (key : string) :
  truthy data = false →
  create_expanded_content data (Some (episode :: chunk_list)) w ne key =
  for_each (expand_episode w) (episode :: chunk_list).
Proof.
  intros Hdata. unfold create_expanded_content. rewrite Hdata. done.
Qed.

Lemma create_without_input (data : option (list record))
    (chunk_list : option (list (list pyval))) (w ne : Z) (key : string) :
  truthy data = false → truthy chunk_list = false →
  create_expanded_content data chunk_list w ne key = Raise ValueError.
Proof.
  intros Hdata Hchunks. unfold create_expanded_content.
  by rewrite Hdata, Hchunks.
Qed.

Lemma create_raise (data : option (list record))
    (chunk_list : option (list (list pyval))) (w ne : Z) (key : string)
    (e : exn) :
  create_expanded_content data chunk_list w ne key = Raise e →
  match e with
  | ValueError => truthy data = false ∧ truthy chunk_list = false
  | AssertionError | KeyError => truthy data = true
  | TypeError => True
  | NameError => False
  end.
Proof.
  destruct data as [[|d ds]|].
  2:{ rewrite create_from_data.
      destruct (groupby_episode (d :: ds) key) as [episodes|e'] eqn:Hg; simpl.
      - unfold py_assert. destruct (_ =? _); simpl.
        + intros [-> | ->]%expand_groups_raise; done.
        + by intros [= <-].
      - intros [= ->]. by apply groupby_episode_raise in Hg as ->. }
  all: destruct chunk_list as [[|episode cl]|];
    try (rewrite create_without_input by done; by intros [= <-]);
    rewrite create_from_chunks by done;
    by intros ->%expand_all_raise.
Qed.

(** ** The window of the specification *)

Lemma window_contents_split (g : list string) (lo hi : Z) (i : nat) (x : string) :
  0 ≤ lo ≤ Z.of_nat i → Z.of_nat i ≤ hi → g !! i = Some x →
  window_contents g lo hi =
  window_contents g lo (Z.of_nat i - 1) ++ x :: window_contents g (Z.of_nat i + 1) hi.
Proof.
  intros Hlo Hhi Hx. unfold window_contents.
  replace (Z.to_nat (hi - lo + 1))
    with (Z.to_nat (Z.of_nat i - 1 - lo + 1) + S (Z.to_nat (hi - (Z.of_nat i + 1) + 1)))%nat
    by lia.
  rewrite seq_app, omap_app. f_equal. simpl.
  replace (Z.to_nat lo + Z.to_nat (Z.of_nat i - 1 - lo + 1))%nat with i by lia.
  rewrite Hx. do 3 f_equal. lia.
Qed.

Lemma window_text_zero (g : list string) (i : nat) (x : string) :
  g !! i = Some x → window_text g 0 i = x.
Proof.
  intros Hx. pose proof (lookup_lt_Some _ _ _ Hx) as Hi.
  unfold window_text, window_contents, window_lo, window_hi.
  replace (Z.to_nat (Z.max 0 (Z.of_nat i - 0))) with i by lia.
  replace (Z.to_nat _) with 1%nat by lia.
  simpl. by rewrite Hx.
Qed.

Lemma expand_episode_zero (g : list string) :
  expand_episode 0 (PStr <$> g) = Ok g.
Proof.
  rewrite expand_episode_strings by done. f_equal.
  apply list_eq. intros i. rewrite list_lookup_fmap.
  destruct (g !! i) as [x|] eqn:Hx.
  - pose proof (lookup_lt_Some _ _ _ Hx) as Hi.
    rewrite lookup_seq_lt by done. simpl. f_equal. by apply window_text_zero.
  - apply lookup_ge_None in Hx. by rewrite lookup_seq_ge.
Qed.

Lemma expand_all_strings (w : Z) (l : list (list string)) :
  0 ≤ w →
  for_each (expand_episode w) (text_chunks l) =
  Ok ((λ g, window_text g w <$> seq 0 (length g)) <$> l).
Proof.
  intros Hw. unfold text_chunks.
  induction l as [|g l IH]; [done|].
  rewrite !fmap_cons. cbn [for_each].
  rewrite expand_episode_strings by done. by rewrite IH.
Qed.

Lemma expand_all_zero (l : list (list string)) :
  for_each (expand_episode 0) (text_chunks l) = Ok l.
Proof.
  unfold text_chunks. induction l as [|g l IH]; [done|].
  rewrite !fmap_cons. cbn [for_each].
  rewrite expand_episode_zero. by rewrite IH.
Qed.

Lemma create_from_text_chunks (l : list (list string)) (w ne : Z) (key : string) :
  l ≠ [] →
  create_expanded_content None (Some (text_chunks l)) w ne key =
  for_each (expand_episode w) (text_chunks l).
Proof. intros Hne. destruct l as [|g l]; [done|]. by apply create_from_chunks. Qed.

(** Content extraction on records whose [content] is text. *)
Lemma extract_contents (episodes : list (list record))
    (contents : list (list string)) :
  Forall2 (Forall2 (λ (d : record) c, d !! "content" = Some (PStr c)))
    episodes contents →
  for_each (λ alist, for_each (λ d, getitem d "content") alist) episodes
  = Ok (text_chunks contents).
Proof.
  unfold text_chunks. induction 1 as [|alist cs episodes contents Hrow _ IH];
    [done|].
  rewrite fmap_cons. cbn [for_each]. rewrite IH.
  assert (for_each (λ d, getitem d "content") alist = Ok (PStr <$> cs)) as ->;
    [|done].
  induction Hrow as [|d c alist cs Hd _ IHrow]; [done|].
  rewrite fmap_cons. cbn [for_each]. unfold getitem at 1.
  by rewrite Hd, IHrow.
Qed.

(** The records path end to end: grouped text records whose number of
    groups passes the check are expanded to the windows of their contents. *)
Lemma create_from_text_records (data : list record)
    (episodes : list (list record)) (contents : list (list string))
    (chunk_list : option (list (list pyval))) (w : Z) (key : string) :
  data ≠ [] → 0 ≤ w →
  groupby_episode data key = Ok episodes →
  Forall2 (Forall2 (λ (d : record) c, d !! "content" = Some (PStr c)))
    episodes contents →
  create_expanded_content (Some data) chunk_list w
    (Z.of_nat (length episodes)) key
  = Ok ((λ g, window_text g w <$> seq 0 (length g)) <$> contents).
Proof.
  intros Hne Hw Hg Hcontents. destruct data as [|d ds]; [done|].
  rewrite create_from_data, Hg. cbn [bind].
  rewrite Z.eqb_refl. cbn [py_assert bind]. unfold expand_groups.
  rewrite (extract_contents _ _ Hcontents). cbn [bind].
  by apply expand_all_strings.
Qed.

(** ** Properties of the specification *)

(** C1. For every pre-grouped chunk list and every non-negative
    [window_size] [w] the Window Expander returns one output list per group
    and one string per record.  The string at position [i] of a group of size
    [n] is the space-joined content of the positions [max(0, i-w)] to
    [min(n-1, i+w)] inclusive, in ascending order, the record's own content
    standing once between the contents before and after it.  For the group
    [A, B, C, D] and [window_size = 1] the outputs are
    ["A B"], ["A B C"], ["B C D"], ["C D"]. *)
Theorem window_expander_clamped_window (chunk_list : list (list string))
    (w ne : Z) (key : string) :
  0 ≤ w → chunk_list ≠ [] →
  ∃ out,
    create_expanded_content None (Some (text_chunks chunk_list)) w ne key
      = Ok out
    ∧ length out = length chunk_list
    ∧ (∀ (j : nat) (g : list string), chunk_list !! j = Some g →
       ∃ o, out !! j = Some o ∧ length o = length g ∧
         ∀ (i : nat) (x : string), g !! i = Some x →
           let n := Z.of_nat (length g) in
           let lo := Z.max 0 (Z.of_nat i - w) in
           let hi := Z.min (n - 1) (Z.of_nat i + w) in
           o !! i = Some (join_strings " " (window_contents g lo hi))
           ∧ window_contents g lo hi =
               window_contents g lo (Z.of_nat i - 1) ++
               x :: window_contents g (Z.of_nat i + 1) hi)
    ∧ create_expanded_content None
        (Some [[PStr "A"; PStr "B"; PStr "C"; PStr "D"]]) 1 ne key
      = Ok [["A B"; "A B C"; "B C D"; "C D"]].
Proof.
  intros Hw Hne.
  exists ((λ g, window_text g w <$> seq 0 (length g)) <$> chunk_list).
  split; [|split; [|split]].
  - rewrite create_from_text_chunks by done. by apply expand_all_strings.
  - by rewrite length_fmap.
  - intros j g Hj. eexists. split; [by rewrite list_lookup_fmap, Hj|].
    split; [by rewrite length_fmap, length_seq|].
    intros i x Hx n lo hi. pose proof (lookup_lt_Some _ _ _ Hx) as Hi.
    split.
    + rewrite list_lookup_fmap, lookup_seq_lt by done. done.
    + apply window_contents_split; [lia..|done].
  - done.
Qed.

Lemma window_expander_clamped_window_witness :
  0 ≤ 2 ∧ [["a"; "b"; "c"]; ["d"]] ≠ [] ∧
  ∃ out,
    create_expanded_content None
      (Some (text_chunks [["a"; "b"; "c"]; ["d"]])) 2 193 "video_id" = Ok out
    ∧ out = [["a b c"; "a b c"; "a b c"]; ["d"]].
Proof.
  split; [lia|]. split; [discriminate|].
  destruct (window_expander_clamped_window [["a"; "b"; "c"]; ["d"]] 2 193
              "video_id") as (out & Hout & _); [lia|discriminate|].
  exists out. split; [exact Hout|].
  vm_compute in Hout. by injection Hout as <-.
Defined.

(** C2. With [window_size = 0] the Window Expander is the identity on
    content: every group comes back unchanged, position by position. *)
Theorem window_zero_identity (chunk_list : list (list string))
    (ne : Z) (key : string) :
  chunk_list ≠ [] →
  create_expanded_content None (Some (text_chunks chunk_list)) 0 ne key
    = Ok chunk_list.
Proof.
  intros Hne. rewrite create_from_text_chunks by done. apply expand_all_zero.
Qed.

Lemma window_zero_identity_witness :
  [["intro"; "body"]; ["outro"]] ≠ [] ∧
  create_expanded_content None
    (Some (text_chunks [["intro"; "body"]; ["outro"]])) 0 193 "video_id"
  = Ok [["intro"; "body"]; ["outro"]].
Proof.
  split; [discriminate|].
  apply (window_zero_identity [["intro"; "body"]; ["outro"]]). discriminate.
Defined.

(** C5 as stated: [ValueError] exactly when both arguments are [None].  An
    empty [data] list without a chunk list is already refused. *)
Lemma invalid_argument_on_empty_data :
  ¬ (∀ (data : option (list record)) (chunk_list : option (list (list pyval)))
       (w ne : Z) (key : string),
       create_expanded_content data chunk_list w ne key = Raise ValueError
       ↔ data = None ∧ chunk_list = None).
Proof.
  intros Hclaim.
  destruct (Hclaim (Some []) None 1 193 "video_id") as [Himp _].
  by destruct Himp.
Qed.

(** C5, amended. The Window Expander raises [ValueError] if and only if
    each of [data] and [chunk_list] is absent or empty; with a non-empty
    [data] or a non-empty [chunk_list] no [ValueError] is raised. *)
Theorem invalid_argument_iff_no_usable_input (data : option (list record))
    (chunk_list : option (list (list pyval))) (w ne : Z) (key : string) :
  create_expanded_content data chunk_list w ne key = Raise ValueError
  ↔ truthy data = false ∧ truthy chunk_list = false.
Proof.
  split.
  - intros Hraise. by apply create_raise in Hraise.
  - intros [Hdata Hchunks]. by apply create_without_input.
Qed.

(** C6. On the empty input the Grouper returns the empty sequence of groups
    and raises nothing. *)
Theorem grouper_empty_input (key : string) : groupby_episode [] key = Ok [].
Proof. reflexivity. Qed.

(** C10 as stated: a supplied [chunk_list] is ignored whenever [data] is
    supplied too.  With an empty [data] list the chunk list is used. *)
Lemma chunk_list_used_with_empty_data :
  ¬ (∀ (data : list record) (chunk_list : list (list pyval))
       (w ne : Z) (key : string),
       create_expanded_content (Some data) (Some chunk_list) w ne key
       = create_expanded_content (Some data) None w ne key).
Proof.
  intros Hclaim.
  specialize (Hclaim [] [[PStr "a"]] 1 193 "video_id").
  vm_compute in Hclaim. discriminate Hclaim.
Qed.

(** C10, amended. When [data] is a non-empty list, a [chunk_list] supplied
    next to it is ignored: the chunk list is recomputed from [data] by
    grouping and content extraction, and the result equals the one of the
    call with [data] only. *)
Theorem chunk_list_ignored_with_data (data : list record)
    (chunk_list : option (list (list pyval))) (w ne : Z) (key : string) :
  data ≠ [] →
  create_expanded_content (Some data) chunk_list w ne key
    = create_expanded_content (Some data) None w ne key
  ∧ create_expanded_content (Some data) chunk_list w ne key
    = (let! episodes := groupby_episode data key in
       check! py_assert (Z.of_nat (length episodes) =? ne) in
       let! chunks :=
         for_each (λ alist, for_each (λ d, getitem d "content") alist)
           episodes in
       for_each (expand_episode w) chunks).
Proof.
  intros Hne. destruct data as [|d ds]; [done|].
  by rewrite !create_from_data.
Qed.

Lemma chunk_list_ignored_with_data_witness :
  let data : list record := [ {[ "video_id" := PStr "ep1"; "content" := PStr "x" ]} ] in
  data ≠ [] ∧
  create_expanded_content (Some data) (Some [[PStr "other"]]) 1 1 "video_id"
    = create_expanded_content (Some data) None 1 1 "video_id".
Proof.
  split; [discriminate|].
  apply (chunk_list_ignored_with_data _ (Some [[PStr "other"]]) 1 1 "video_id").
  discriminate.
Defined.

(** C3. For every sequence of records that carry the grouping key, the
    groups of the Grouper partition the input: concatenated in output order
    they give back the input, the group sizes add up to the input length, no
    group is empty, and each group is the segment of the input that starts
    right after the groups before it, so that groups come in the order in
    which their runs first occur. *)
Theorem grouper_partitions_input (data : list record) (key : string) :
  Forall (has_key key) data →
  ∃ episodes,
    groupby_episode data key = Ok episodes
    ∧ concat episodes = data
    ∧ sum_list (length <$> episodes) = length data
    ∧ Forall (λ g, g ≠ []) episodes
    ∧ ∀ (j : nat) (g : list record), episodes !! j = Some g →
        g = take (length g)
              (drop (sum_list (length <$> take j episodes)) data).
Proof.
  intros Hdata.
  destruct (groupby_episode_runs data key Hdata) as (runs & Hg & Hcat & Hruns & _).
  exists (runs.*2). split; [done|]. split; [done|].
  split; [by rewrite concat_length_sum, Hcat|].
  split; [by eapply runs_nonempty|].
  intros j g Hj. rewrite <- Hcat. by apply concat_segment.
Qed.

Lemma grouper_partitions_input_witness :
  let r (k c : string) : record :=
    {[ "video_id" := PStr k; "content" := PStr c ]} in
  let data := [r "ep1" "a"; r "ep1" "b"; r "ep2" "c"] in
  Forall (has_key "video_id") data ∧
  ∃ episodes,
    groupby_episode data "video_id" = Ok episodes ∧ concat episodes = data.
Proof.
  intros r data. split; [by apply (bool_decide_unpack _)|].
  destruct (grouper_partitions_input data "video_id")
    as (episodes & Hg & Hcat & _); [by apply (bool_decide_unpack _)|].
  by exists episodes.
Defined.

(** C4. The Grouper has run-length semantics.  Its groups are the maximal
    contiguous runs of equal keys, in input order: every group is a non-empty
    run of one key value, two consecutive groups have different key values,
    and the groups concatenate to the input.  A key value whose records are
    not contiguous (some record with another key stands between two of them)
    therefore produces at least two separate groups. *)
Theorem grouper_run_length_semantics (data : list record) (key : string) :
  Forall (has_key key) data →
  ∃ runs : list (pyval * list record),
    groupby_episode data key = Ok (runs.*2)
    ∧ concat (runs.*2) = data
    ∧ Forall (is_run key) runs
    ∧ adjacent_distinct (runs.*1)
    ∧ ∀ (p q r : nat) (dp dq dr : record) (k : pyval),
        (p < q < r)%nat →
        data !! p = Some dp → data !! q = Some dq → data !! r = Some dr →
        dp !! key = Some k → dr !! key = Some k → dq !! key ≠ Some k →
        ∃ (j1 j2 : nat) (g1 g2 : list record),
          (j1 < j2)%nat ∧ runs !! j1 = Some (k, g1) ∧ runs !! j2 = Some (k, g2).
Proof.
  intros Hdata.
  destruct (groupby_episode_runs data key Hdata) as (runs & Hg & Hcat & Hruns & Hadj).
  exists runs. do 4 (split; [done|]).
  intros p q r dp dq dr k Hpqr Hp Hq Hr Hkp Hkr Hkq. rewrite <- Hcat in Hp, Hq, Hr.
  destruct (run_of_position runs key p dp k Hruns Hp Hkp) as (j1 & g1 & i1 & Hj1 & Hi1 & ->).
  destruct (run_of_position runs key r dr k Hruns Hr Hkr) as (j2 & g2 & i2 & Hj2 & Hi2 & ->).
  destruct (Nat.lt_trichotomy j1 j2) as [Hlt|[->|Hgt]].
  - by exists j1, j2, g1, g2.
  - exfalso. rewrite Hj1 in Hj2. injection Hj2 as <-.
    pose proof (lookup_lt_Some _ _ _ Hi2) as Hlen.
    assert (runs.*2 !! j2 = Some g1) as Hj by (by rewrite list_lookup_fmap, Hj1).
    set (off := sum_list (length <$> take j2 (runs.*2))) in *.
    replace q with (off + (q - off))%nat in Hq by lia.
    rewrite (concat_lookup_group _ _ _ _ Hj) in Hq by lia.
    pose proof (Forall_lookup_1 _ _ _ _ Hruns Hj1) as [_ Hkeys]. simpl in Hkeys.
    by pose proof (Forall_lookup_1 _ _ _ _ Hkeys Hq).
  - by exists j2, j1, g2, g1.
Qed.

Lemma grouper_run_length_semantics_witness :
  let r (k c : string) : record :=
    {[ "video_id" := PStr k; "content" := PStr c ]} in
  let data := [r "ep1" "a"; r "ep2" "b"; r "ep1" "c"] in
  Forall (has_key "video_id") data ∧
  ∃ runs : list (pyval * list record),
    groupby_episode data "video_id" = Ok (runs.*2) ∧
    ∃ (j1 j2 : nat) (g1 g2 : list record),
      (j1 < j2)%nat ∧ runs !! j1 = Some (PStr "ep1", g1)
      ∧ runs !! j2 = Some (PStr "ep1", g2).
Proof.
  intros r data. split; [by apply (bool_decide_unpack _)|].
  destruct (grouper_run_length_semantics data "video_id")
    as (runs & Hg & _ & _ & _ & Hsplit); [by apply (bool_decide_unpack _)|].
  exists runs. split; [done|].
  apply (Hsplit 0 1 2 (r "ep1" "a") (r "ep2" "b") (r "ep1" "c"))%nat;
    [lia|done..].
Defined.

(** Records of one key that are not contiguous end up in separate groups. *)
Example groupby_episode_interleaved :
  let r (k c : string) : record :=
    {[ "video_id" := PStr k; "content" := PStr c ]} in
  groupby_episode [r "ep1" "a"; r "ep1" "b"; r "ep2" "c"; r "ep1" "d"] "video_id"
  = Ok [[r "ep1" "a"; r "ep1" "b"]; [r "ep2" "c"]; [r "ep1" "d"]].
Proof. reflexivity. Qed.

(** C9 as stated: whenever raw records are supplied and the Grouper's group
    count on them differs from [num_episodes], the call fails with
    [AssertionError].  An empty [data] list (no groups, so a count of 0
    against 193) is never grouped: the supplied chunk list is expanded and
    returned. *)
Lemma episode_count_unchecked_on_empty_data :
  ¬ (∀ (data : list record) (chunk_list : option (list (list pyval)))
       (w ne : Z) (key : string) (episodes : list (list record)),
       groupby_episode data key = Ok episodes →
       Z.of_nat (length episodes) ≠ ne →
       create_expanded_content (Some data) chunk_list w ne key
         = Raise AssertionError).
Proof.
  intros Hclaim.
  specialize (Hclaim [] (Some [[PStr "a"]]) 1 193 "video_id" [] eq_refl).
  vm_compute in Hclaim. by specialize (Hclaim ltac:(discriminate)).
Qed.

(** C9, amended. When a non-empty list of raw records is given and the
    Grouper's number of
    groups differs from [num_episodes], the call raises [AssertionError],
    whatever the content fields hold (nothing is expanded before the check);
    when the numbers agree the call goes on to the expansion.  In particular,
    on 193 contiguous non-empty runs the Grouper returns exactly these 193
    groups, in order, and the check against the default [num_episodes]
    passes. *)
Theorem episode_count_check (data : list record)
    (chunk_list : option (list (list pyval))) (w ne : Z) (key : string) :
  data ≠ [] → Forall (has_key key) data →
  ∃ episodes,
    groupby_episode data key = Ok episodes
    ∧ (Z.of_nat (length episodes) ≠ ne →
       create_expanded_content (Some data) chunk_list w ne key
         = Raise AssertionError)
    ∧ (Z.of_nat (length episodes) = ne →
       create_expanded_content (Some data) chunk_list w ne key
         = expand_groups w episodes)
    ∧ (∀ runs : list (pyval * list record),
         maximal_runs key runs → concat (runs.*2) = data →
         length runs = 193%nat →
         episodes = runs.*2 ∧ length episodes = 193%nat ∧
         create_expanded_content (Some data) chunk_list w default_num_episodes key
           = expand_groups w episodes).
Proof.
  intros Hne Hdata. destruct data as [|d ds]; [done|].
  destruct (groupby_episode_runs _ key Hdata) as (runs0 & Hg & _).
  exists (runs0.*2). split; [done|].
  assert (∀ n, Z.of_nat (length (runs0.*2)) = n →
    create_expanded_content (Some (d :: ds)) chunk_list w n key
      = expand_groups w (runs0.*2)) as Hpass.
  { intros n Hn. rewrite create_from_data, Hg. cbn [bind].
    apply Z.eqb_eq in Hn. by rewrite Hn. }
  split; [|split; [exact (Hpass ne)|]].
  - intros Hlen. rewrite create_from_data, Hg. cbn [bind].
    apply Z.eqb_neq in Hlen. by rewrite Hlen.
  - intros runs Hmax Hcat Hlen.
    pose proof (groupby_episode_concat_runs runs key Hmax) as Hg'.
    rewrite Hcat, Hg in Hg'. injection Hg' as Heq.
    split; [done|].
    assert (length (runs0.*2) = 193%nat) as Hlen0
      by (by rewrite Heq, length_fmap).
    split; [done|]. apply Hpass. rewrite Hlen0. done.
Qed.

Lemma episode_count_check_witness :
  let runs := single_chunk_runs 193 in
  let data := concat (runs.*2) in
  data ≠ [] ∧ Forall (has_key "video_id") data ∧
  groupby_episode data "video_id" = Ok (runs.*2) ∧
  length (runs.*2) = 193%nat ∧
  create_expanded_content (Some data) None 1 default_num_episodes "video_id"
    = expand_groups 1 (runs.*2) ∧
  create_expanded_content (Some data) None 1 192 "video_id"
    = Raise AssertionError.
Proof.
  intros runs data.
  assert (data ≠ []) as Hne
    by (apply (bool_decide_unpack _); vm_compute; exact I).
  assert (Forall (has_key "video_id") data) as Hkeys
    by (apply (bool_decide_unpack _); vm_compute; exact I).
  assert (maximal_runs "video_id" runs) as Hmax
    by (apply (bool_decide_unpack _); vm_compute; exact I).
  split; [exact Hne|]. split; [exact Hkeys|].
  destruct (episode_count_check data None 1 192 "video_id" Hne Hkeys)
    as (episodes & Hg & Hfail & _ & Hruns).
  destruct (Hruns runs Hmax eq_refl eq_refl) as (-> & Hlen & Hpass).
  split; [exact Hg|]. split; [exact Hlen|]. split; [exact Hpass|].
  apply Hfail. rewrite Hlen. lia.
Defined.

(** The count check comes before content extraction: records without a
    [content] field still fail with [AssertionError], not [KeyError]. *)
Example episode_count_check_before_extraction :
  let d : record := {[ "video_id" := PStr "ep1" ]} in
  create_expanded_content (Some [d]) None 1 default_num_episodes "video_id"
    = Raise AssertionError
  ∧ create_expanded_content (Some [d]) None 1 1 "video_id" = Raise KeyError.
Proof. split; reflexivity. Qed.

(** ** The assignment cell *)

Lemma load_raise (ns : namespace) (name : string) (e : exn) :
  load ns name = Raise e → e = NameError.
Proof. unfold load. destruct (ns !! name); [done|]. by intros [= <-]. Qed.

Lemma py_len_raise (x : gobj) (e : exn) : py_len x = Raise e → e = TypeError.
Proof. destruct x; simpl; try done; by intros [= <-]. Qed.

(** Without a binding of [data_length] the check neither passes nor fails
    with an assertion failure. *)
Lemma azimuth_check_unbound (ns : namespace) :
  ns !! "data_length" = None →
  (∀ ns', azimuth_check ns ≠ Ok ns') ∧ azimuth_check ns ≠ Raise AssertionError.
Proof.
  intros Hunbound. unfold azimuth_check.
  destruct (load ns "flattened_content") as [fc|e] eqn:Hfc; cbn [bind].
  2:{ apply load_raise in Hfc as ->. split; [intros ns'|]; discriminate. }
  destruct (py_len fc) as [n|e] eqn:Hn; cbn [bind].
  2:{ apply py_len_raise in Hn as ->. split; [intros ns'|]; discriminate. }
  destruct (load _ "data") as [data|e] eqn:Hdata; cbn [bind].
  2:{ apply load_raise in Hdata as ->. split; [intros ns'|]; discriminate. }
  destruct (py_len data) as [m|e] eqn:Hm; cbn [bind].
  2:{ apply py_len_raise in Hm as ->. split; [intros ns'|]; discriminate. }
  unfold load. rewrite lookup_insert_ne, lookup_insert_eq by done. cbn [bind].
  rewrite !lookup_insert_ne, Hunbound by done. cbn [bind].
  split; [intros ns'|]; discriminate.
Qed.

(** With a stale [data_length] left in the namespace the assertion compares
    the flattened length with that value; the length of [data] plays no
    part. *)
Lemma azimuth_check_stale (ns : namespace) (flat : list string)
    (data : list record) (stale : gobj) :
  ns !! "flattened_content" = Some (GStrings flat) →
  ns !! "data" = Some (GRecords data) →
  ns !! "data_length" = Some stale →
  azimuth_check ns =
  if bool_decide (GInt (Z.of_nat (length flat)) = stale)
  then Ok (<["data_legnth" := GInt (Z.of_nat (length data))]>
            (<["flat_length" := GInt (Z.of_nat (length flat))]> ns))
  else Raise AssertionError.
Proof.
  intros Hflat Hdata Hstale. unfold azimuth_check, load.
  rewrite Hflat. cbn [bind py_len].
  rewrite lookup_insert_ne, Hdata by done. cbn [bind py_len].
  rewrite lookup_insert_ne, lookup_insert_eq by done. cbn [bind].
  rewrite !lookup_insert_ne, Hstale by done. cbn [bind].
  by destruct (bool_decide _).
Qed.

(** C7. In a namespace that binds [flattened_content] and [data] (and, as
    in the notebook, no [data_length]) the length check raises [NameError]
    both when the two lengths are equal and when they differ: it neither
    lets equal lengths through nor reports a mismatch as an assertion
    failure.  The assignment cell as it stands stops even earlier, with the
    [ValueError] of [create_expanded_content(None)]. *)
Theorem azimuth_check_name_error :
  let r : record := chunk_record (PStr "ep1") "x" in
  azimuth_check {[ "flattened_content" := GStrings ["x"];
                   "data" := GRecords [r] ]} = Raise NameError
  ∧ azimuth_check {[ "flattened_content" := GStrings [];
                     "data" := GRecords [r] ]} = Raise NameError
  ∧ ∀ ns, assignment_cell ns = Raise ValueError.
Proof. split; [reflexivity|]. split; [reflexivity|]. intros ns. reflexivity. Qed.

(** C8. [join_expanded_content] returns its first argument as it is: the
    records come back without an [expanded_content] field and the post-check
    cell fails on them. *)
Theorem join_expanded_content_returns_input :
  let r : record := chunk_record (PStr "ep1") "x" in
  (∀ (data : list record) (flattened_content : list string),
     join_expanded_content data flattened_content = data)
  ∧ join_expanded_content [r] ["x"] = [r]
  ∧ Forall (λ d : record, d !! "expanded_content" = None)
      (join_expanded_content [r] ["x"])
  ∧ post_check (join_expanded_content [r] ["x"]) = Raise AssertionError.
Proof.
  split; [reflexivity|]. split; [reflexivity|]. split; [|reflexivity].
  repeat constructor.
Qed.

(** ** Further properties of the code *)

Section for_each_more.
Context {A B : Type}.
Implicit Types (f : A → result B) (l : list A).

Lemma for_each_ok_Forall2 f l out :
  for_each f l = Ok out → Forall2 (λ x y, f x = Ok y) l out.
Proof.
  revert out. induction l as [|x l IH]; intros out; simpl.
  - intros [= <-]. constructor.
  - destruct (f x) as [y|e] eqn:Hx; simpl; [|done].
    destruct (for_each f l) as [ys|e]; simpl; [|done].
    intros [= <-]. constructor; [done|]. by apply IH.
Qed.

Lemma for_each_app f l1 l2 :
  for_each f (l1 ++ l2) =
  (let! a := for_each f l1 in let! b := for_each f l2 in Ok (a ++ b)).
Proof.
  induction l1 as [|x l1 IH]; simpl.
  - by destruct (for_each f l2).
  - destruct (f x) as [y|e]; simpl; [|done]. rewrite IH.
    destruct (for_each f l1) as [a|e]; simpl; [|done].
    by destruct (for_each f l2).
Qed.

(** A loop whose body can only raise [e0] raises [e0] as soon as the body
    raises on some element. *)
Lemma for_each_some_raise f l (e0 : exn) :
  (∀ x e, f x = Raise e → e = e0) →
  Exists (λ x, ∃ e, f x = Raise e) l → for_each f l = Raise e0.
Proof.
  intros Honly. induction 1 as [x l [e Hx]|x l _ IH]; simpl.
  - rewrite Hx. simpl. by rewrite (Honly _ _ Hx).
  - destruct (f x) as [y|e] eqn:Hx; simpl.
    + by rewrite IH.
    + by rewrite (Honly _ _ Hx).
Qed.
End for_each_more.

Lemma expand_from_length (episode : list pyval) (w : Z) :
  ∀ todo i out, expand_from episode w i todo = Ok out → length out = length todo.
Proof.
  induction todo as [|chunk todo IH]; intros i out; simpl.
  - by intros [= <-].
  - destruct (py_join _ _) as [s|e]; simpl; [|done].
    destruct (expand_from episode w (i + 1) todo) as [r|e] eqn:Hr; simpl; [|done].
    intros [= <-]. simpl. by rewrite (IH _ _ Hr).
Qed.

Lemma expand_all_shape (w : Z) (chunk_list : list (list pyval))
    (out : list (list string)) :
  for_each (expand_episode w) chunk_list = Ok out →
  Forall2 (λ episode o, length o = length episode) chunk_list out.
Proof.
  intros Hout%for_each_ok_Forall2.
  eapply Forall2_impl; [exact Hout|]. intros episode o Ho.
  unfold expand_episode in Ho. by eapply expand_from_length.
Qed.

Lemma Forall2_same_length_concat {A B} (ls : list (list A)) (ks : list (list B)) :
  Forall2 (λ l k, length k = length l) ls ks →
  length (concat ks) = length (concat ls).
Proof.
  induction 1 as [|l k ls ks Hlk _ IH]; simpl; [done|].
  rewrite !length_app. by rewrite Hlk, IH.
Qed.

(** X1. A call on a pre-grouped chunk list that returns keeps the shape of
    its input, for every window size and whatever the items are: one output
    list per episode and one string per chunk. *)
Theorem expansion_keeps_shape (data : option (list record))
    (chunk_list : list (list pyval)) (w ne : Z) (key : string)
    (out : list (list string)) :
  truthy data = false →
  create_expanded_content data (Some chunk_list) w ne key = Ok out →
  Forall2 (λ episode o, length o = length episode) chunk_list out.
Proof.
  intros Hdata Hout. destruct chunk_list as [|episode cl].
  - by rewrite create_without_input in Hout.
  - rewrite create_from_chunks in Hout by done.
    by apply (expand_all_shape w).
Qed.

Lemma expansion_keeps_shape_witness :
  let chunk_list := [[PStr "a"; PStr "b"; PStr "c"]; []; [PStr "d"]] in
  truthy (Some ([] : list record)) = false ∧
  create_expanded_content (Some []) (Some chunk_list) (-2) 7 "k"
    = Ok [[""; ""; ""]; []; [""]] ∧
  Forall2 (λ (episode : list pyval) (o : list string),
             length o = length episode)
    chunk_list [[""; ""; ""]; []; [""]].
Proof.
  intros chunk_list. split; [reflexivity|]. split; [reflexivity|].
  apply (expansion_keeps_shape (Some []) chunk_list (-2) 7 "k");
    reflexivity.
Defined.

Lemma groupby_episode_ok_concat (data : list record) (key : string)
    (episodes : list (list record)) :
  groupby_episode data key = Ok episodes →
  concat episodes = data ∧ Forall (λ g, g ≠ []) episodes.
Proof.
  intros Hg.
  assert (Forall (has_key key) data) as Hkeys
    by (apply groupby_episode_returns_iff; eauto).
  destruct (groupby_episode_runs data key Hkeys) as (runs & Hg' & Hcat & Hruns & _).
  rewrite Hg in Hg'. injection Hg' as ->.
  split; [done|]. by eapply runs_nonempty.
Qed.

Lemma extract_contents_shape (episodes : list (list record))
    (chunks : list (list pyval)) :
  for_each (λ alist, for_each (λ d, getitem d "content") alist) episodes
    = Ok chunks →
  Forall2 (λ alist cs, length cs = length alist) episodes chunks.
Proof.
  intros Hc%for_each_ok_Forall2.
  eapply Forall2_impl; [exact Hc|]. intros alist cs Hcs.
  by apply for_each_ok_length in Hcs.
Qed.

(** X2. When a call on non-empty raw records returns, the number of output
    groups is [num_episodes] and the outputs, flattened in order, are as many
    as the input records. *)
Theorem records_path_output_counts (data : list record)
    (chunk_list : option (list (list pyval))) (w ne : Z) (key : string)
    (out : list (list string)) :
  data ≠ [] →
  create_expanded_content (Some data) chunk_list w ne key = Ok out →
  Z.of_nat (length out) = ne ∧ length (concat out) = length data.
Proof.
  intros Hne Hout. destruct data as [|d ds]; [done|].
  rewrite create_from_data in Hout.
  destruct (groupby_episode (d :: ds) key) as [episodes|e] eqn:Hg; [|done].
  cbn [bind] in Hout. unfold py_assert in Hout.
  destruct (Z.eqb_spec (Z.of_nat (length episodes)) ne) as [Hcount|_]; [|done].
  cbn [bind] in Hout. unfold expand_groups in Hout.
  destruct (for_each _ episodes) as [chunks|e] eqn:Hchunks; [|done].
  cbn [bind] in Hout.
  apply extract_contents_shape in Hchunks.
  apply expand_all_shape in Hout.
  apply groupby_episode_ok_concat in Hg as [<- _].
  split.
  - rewrite <- Hcount. f_equal.
    rewrite <- (Forall2_length _ _ _ Hout). by rewrite (Forall2_length _ _ _ Hchunks).
  - rewrite (Forall2_same_length_concat _ _ Hout).
    by rewrite (Forall2_same_length_concat _ _ Hchunks).
Qed.

Lemma records_path_output_counts_witness :
  let data := [chunk_record (PStr "ep1") "a"; chunk_record (PStr "ep1") "b";
               chunk_record (PStr "ep2") "c"] in
  data ≠ [] ∧
  create_expanded_content (Some data) None 1 2 "video_id"
    = Ok [["a b"; "a b"]; ["c"]] ∧
  Z.of_nat (length [["a b"; "a b"]; ["c"]]) = 2 ∧
  length (concat [["a b"; "a b"]; ["c"]]) = length data.
Proof.
  intros data. split; [discriminate|]. split; [reflexivity|].
  apply (records_path_output_counts data None 1 2 "video_id");
    [discriminate|reflexivity].
Defined.

(** X3. The Grouper raises [KeyError] exactly when some record lacks the
    grouping key, and it raises nothing else. *)
Theorem groupby_episode_key_error_iff (data : list record) (key : string) :
  (groupby_episode data key = Raise KeyError
   ↔ Exists (λ d : record, d !! key = None) data)
  ∧ ∀ e, groupby_episode data key = Raise e → e = KeyError.
Proof.
  split; [|intros e; apply groupby_episode_raise].
  pose proof (groupby_episode_returns_iff data key) as Hiff.
  split.
  - intros Hraise.
    destruct (decide (Forall (has_key key) data)) as [Hall|Hnot].
    + apply Hiff in Hall as [episodes Hok]. congruence.
    + apply not_Forall_Exists in Hnot; [|apply _].
      eapply Exists_impl; [exact Hnot|]. intros d Hd. simpl in Hd.
      by apply eq_None_not_Some.
  - intros Hex. destruct (groupby_episode data key) as [episodes|e] eqn:Hg.
    + assert (Forall (has_key key) data) as Hall by (apply Hiff; eauto).
      apply Exists_exists in Hex as (d & Hd & Hnone).
      rewrite Forall_forall in Hall. destruct (Hall d Hd) as [k Hk]. congruence.
    + by apply groupby_episode_raise in Hg as ->.
Qed.

(** X4. On non-empty raw records of which one lacks the grouping key the
    Window Expander raises [KeyError], whatever [num_episodes], the window
    size and the chunk list are: the grouping fails before the count check. *)
Theorem missing_key_field_raises_key_error (data : list record)
    (chunk_list : option (list (list pyval))) (w ne : Z) (key : string) :
  data ≠ [] → Exists (λ d : record, d !! key = None) data →
  create_expanded_content (Some data) chunk_list w ne key = Raise KeyError.
Proof.
  intros Hne Hex. destruct data as [|d ds]; [done|].
  rewrite create_from_data.
  destruct (groupby_episode (d :: ds) key) as [episodes|e] eqn:Hg; cbn [bind].
  - assert (Forall (has_key key) (d :: ds)) as Hall
      by (apply groupby_episode_returns_iff; eauto).
    apply Exists_exists in Hex as (d' & Hd' & Hnone).
    rewrite Forall_forall in Hall. destruct (Hall d' Hd') as [k Hk]. congruence.
  - by apply groupby_episode_raise in Hg as ->.
Qed.

Lemma missing_key_field_raises_key_error_witness :
  let data : list record :=
    [chunk_record (PStr "ep1") "a"; {[ "content" := PStr "b" ]}] in
  data ≠ [] ∧ Exists (λ d : record, d !! "video_id" = None) data ∧
  create_expanded_content (Some data) None 1 1 "video_id" = Raise KeyError.
Proof.
  intros data. split; [discriminate|].
  assert (Exists (λ d : record, d !! "video_id" = None) data) as Hex
    by (apply (bool_decide_unpack _); vm_compute; exact I).
  split; [exact Hex|].
  apply (missing_key_field_raises_key_error data None 1 1 "video_id");
    [discriminate|exact Hex].
Defined.

Lemma extract_row_raise (alist : list record) (e : exn) :
  for_each (λ d, getitem d "content") alist = Raise e → e = KeyError.
Proof. intros (d & _ & Hd)%for_each_raise. by eapply getitem_raise. Qed.

(** X5. On non-empty raw records whose groups pass the count check, a
    record without a [content] field makes the Window Expander raise
    [KeyError]. *)
Theorem missing_content_raises_key_error (data : list record)
    (episodes : list (list record)) (chunk_list : option (list (list pyval)))
    (w : Z) (key : string) :
  data ≠ [] → groupby_episode data key = Ok episodes →
  Exists (λ d : record, d !! "content" = None) data →
  create_expanded_content (Some data) chunk_list w
    (Z.of_nat (length episodes)) key = Raise KeyError.
Proof.
  intros Hne Hg Hex. destruct data as [|d0 ds]; [done|].
  rewrite create_from_data, Hg. cbn [bind].
  rewrite Z.eqb_refl. cbn [py_assert bind]. unfold expand_groups.
  apply groupby_episode_ok_concat in Hg as [Hcat _].
  rewrite <- Hcat, concat_mjoin in Hex.
  apply Exists_exists in Hex as (d & (g & Hd & Hg)%list_elem_of_join & Hnone).
  rewrite (for_each_some_raise _ episodes KeyError); [done|apply extract_row_raise|].
  apply Exists_exists. exists g. split; [done|].
  exists KeyError. apply for_each_some_raise; [intros x e; apply getitem_raise|].
  apply Exists_exists. exists d. split; [done|].
  exists KeyError. unfold getitem. by rewrite Hnone.
Qed.

Lemma missing_content_raises_key_error_witness :
  let d1 : record := chunk_record (PStr "ep1") "a" in
  let d2 : record := {[ "video_id" := PStr "ep1" ]} in
  [d1; d2] ≠ [] ∧ groupby_episode [d1; d2] "video_id" = Ok [[d1; d2]] ∧
  Exists (λ d : record, d !! "content" = None) [d1; d2] ∧
  create_expanded_content (Some [d1; d2]) None 1 1 "video_id" = Raise KeyError.
Proof.
  intros d1 d2.
  assert (Exists (λ d : record, d !! "content" = None) [d1; d2]) as Hex
    by (apply (bool_decide_unpack _); vm_compute; exact I).
  split; [discriminate|]. split; [reflexivity|]. split; [exact Hex|].
  apply (missing_content_raises_key_error [d1; d2] [[d1; d2]] None 1 "video_id");
    [discriminate|reflexivity|exact Hex].
Defined.

(** The item at a position between the bounds of a slice is in the slice. *)
Lemma py_slice_elem {A} (l : list A) (s e : Z) (i : nat) (x : A) :
  0 ≤ s ≤ Z.of_nat i → Z.of_nat i < e → l !! i = Some x →
  x ∈ py_slice l s e.
Proof.
  intros Hs He Hx. pose proof (lookup_lt_Some _ _ _ Hx) as Hi.
  unfold py_slice, slice_bound.
  destruct (Z.ltb_spec s 0) as [?|_]; [lia|].
  destruct (Z.ltb_spec e 0) as [?|_]; [lia|].
  apply list_elem_of_lookup. exists (i - Z.to_nat s)%nat.
  rewrite lookup_take_lt by lia. rewrite lookup_drop.
  by replace (Z.to_nat (Z.min s (Z.of_nat (length l))) + (i - Z.to_nat s))%nat
    with i by lia.
Qed.

Lemma py_join_ok_text (sep : string) (l : list pyval) (s : string) :
  py_join sep l = Ok s → Forall (λ v, ∃ t, v = PStr t) l.
Proof.
  unfold py_join. destruct (for_each as_str l) as [ss|e] eqn:Hss; [|done].
  intros _. apply for_each_ok_Forall2 in Hss.
  induction Hss as [|v t l ss Hv _ IH]; constructor; [|done].
  destruct v; try done. by eexists.
Qed.

Lemma expand_from_ok_text (episode : list pyval) (w : Z) :
  0 ≤ w → ∀ todo (i : nat) out,
  drop i episode = todo →
  expand_from episode w (Z.of_nat i) todo = Ok out →
  Forall (λ v, ∃ t, v = PStr t) todo.
Proof.
  intros Hw todo. induction todo as [|chunk todo IH]; intros i out Hdrop; simpl;
    [constructor|].
  destruct (py_join _ _) as [s|e] eqn:Hs; simpl; [|done].
  destruct (expand_from episode w (Z.of_nat i + 1) todo) as [r|e] eqn:Hr;
    simpl; [|done].
  intros _. constructor.
  - apply py_join_ok_text in Hs. rewrite Forall_forall in Hs. apply Hs.
    apply (py_slice_elem _ _ _ i); [lia|lia|].
    rewrite <- (Nat.add_0_r i), <- lookup_drop, Hdrop. done.
  - replace (Z.of_nat i + 1) with (Z.of_nat (S i)) in Hr by lia.
    eapply IH; [|exact Hr].
    rewrite <- (Nat.add_1_r i), <- drop_drop, Hdrop. done.
Qed.

(** X6. With a non-negative window size, a pre-grouped chunk list that
    holds an item which is not text makes the Window Expander raise
    [TypeError]: every item lies in its own window, so none is skipped. *)
Theorem non_text_item_raises_type_error (data : option (list record))
    (chunk_list : list (list pyval)) (w ne : Z) (key : string) :
  truthy data = false → 0 ≤ w →
  Exists (λ episode, Exists (λ v, ∀ t, v ≠ PStr t) episode) chunk_list →
  create_expanded_content data (Some chunk_list) w ne key = Raise TypeError.
Proof.
  intros Hdata Hw Hex. destruct chunk_list as [|episode0 cl].
  { by apply Exists_nil in Hex. }
  rewrite create_from_chunks by done.
  apply for_each_some_raise; [intros x e; apply expand_from_raise|].
  eapply Exists_impl; [exact Hex|]. intros episode Hbad. simpl in Hbad.
  destruct (expand_episode w episode) as [out|e] eqn:Hout; [|by eexists].
  exfalso. unfold expand_episode in Hout.
  apply (expand_from_ok_text episode w Hw episode 0%nat) in Hout; [|done].
  apply Exists_exists in Hbad as (v & Hv & Hnot).
  rewrite Forall_forall in Hout. destruct (Hout v Hv) as [t ->]. by eapply Hnot.
Qed.

Lemma non_text_item_raises_type_error_witness :
  let chunk_list := [[PStr "a"; PStr "b"]; [PStr "c"; PInt 7]] in
  truthy (None : option (list record)) = false ∧ 0 ≤ 1 ∧
  Exists (λ episode, Exists (λ v, ∀ t, v ≠ PStr t) episode) chunk_list ∧
  create_expanded_content None (Some chunk_list) 1 193 "video_id"
    = Raise TypeError.
Proof.
  intros chunk_list.
  assert (Exists (λ episode, Exists (λ v, ∀ t, v ≠ PStr t) episode) chunk_list)
    as Hex.
  { apply Exists_cons_tl, Exists_cons_hd, Exists_cons_tl, Exists_cons_hd.
    intros t. discriminate. }
  split; [reflexivity|]. split; [lia|]. split; [exact Hex|].
  apply (non_text_item_raises_type_error None chunk_list 1 193 "video_id");
    [reflexivity|lia|exact Hex].
Defined.



(** X8. Episodes are expanded independently of each other: the result for
    two chunk lists put one after the other is the result for the first
    followed by the result for the second, and fails when either fails. *)
Theorem expansion_of_appended_chunk_lists (cl1 cl2 : list (list pyval))
    (w ne : Z) (key : string) :
  cl1 ≠ [] → cl2 ≠ [] →
  create_expanded_content None (Some (cl1 ++ cl2)) w ne key =
  (let! out1 := create_expanded_content None (Some cl1) w ne key in
   let! out2 := create_expanded_content None (Some cl2) w ne key in
   Ok (out1 ++ out2)).
Proof.
  intros H1 H2. destruct cl1 as [|e1 cl1]; [done|].
  destruct cl2 as [|e2 cl2]; [done|].
  rewrite <- app_comm_cons, !create_from_chunks by done.
  rewrite app_comm_cons. apply for_each_app.
Qed.

Lemma expansion_of_appended_chunk_lists_witness :
  let cl1 := [[PStr "a"; PStr "b"]] in
  let cl2 := [[PStr "c"]; [PStr "d"; PStr "e"]] in
  cl1 ≠ [] ∧ cl2 ≠ [] ∧
  create_expanded_content None (Some (cl1 ++ cl2)) 1 193 "video_id"
    = Ok ([["a b"; "a b"]] ++ [["c"]; ["d e"; "d e"]]).
Proof.
  intros cl1 cl2. split; [discriminate|]. split; [discriminate|].
  rewrite (expansion_of_appended_chunk_lists cl1 cl2 1 193 "video_id");
    [reflexivity|discriminate|discriminate].
Defined.

(** The loop on a text episode, for an arbitrary window size: position [k]
    gets the join of the slice the loop takes there. *)
Lemma expand_from_text (g : list string) (w : Z) :
  ∀ (todo : list string) (i : nat),
  expand_from (PStr <$> g) w (Z.of_nat i) (PStr <$> todo) =
  Ok ((λ k : nat,
         join_strings " "
           (py_slice g (Z.max 0 (Z.of_nat k - w)) (Z.of_nat k + w + 1)))
        <$> seq i (length todo)).
Proof.
  induction todo as [|x todo IH]; intros i; simpl; [done|].
  rewrite py_slice_fmap, py_join_strings. simpl.
  replace (Z.of_nat i + 1) with (Z.of_nat (S i)) by lia.
  by rewrite IH.
Qed.

Lemma expand_all_text (w : Z) (l : list (list string)) :
  for_each (expand_episode w) (text_chunks l) =
  Ok ((λ g, (λ k : nat,
               join_strings " "
                 (py_slice g (Z.max 0 (Z.of_nat k - w)) (Z.of_nat k + w + 1)))
              <$> seq 0 (length g)) <$> l).
Proof.
  unfold text_chunks. induction l as [|g l IH]; [done|].
  rewrite !fmap_cons. cbn [for_each]. unfold expand_episode at 1.
  change (expand_from (PStr <$> g) w 0 (PStr <$> g))
    with (expand_from (PStr <$> g) w (Z.of_nat 0) (PStr <$> g)).
  rewrite expand_from_text. cbn [bind]. by rewrite IH.
Qed.

Lemma py_slice_negative_window {A} (l : list A) (w : Z) (i : nat) :
  w < 0 → - w - 1 ≤ Z.of_nat i →
  py_slice l (Z.max 0 (Z.of_nat i - w)) (Z.of_nat i + w + 1) = [].
Proof.
  intros Hw Hi. unfold py_slice, slice_bound.
  destruct (Z.ltb_spec (Z.max 0 (Z.of_nat i - w)) 0) as [?|_]; [lia|].
  destruct (Z.ltb_spec (Z.of_nat i + w + 1) 0) as [?|_]; [lia|].
  by replace (Z.to_nat _) with 0%nat by lia.
Qed.

(** X9. A negative window size is accepted without complaint.  On text the
    call returns one string per chunk, and from position [-window_size - 1]
    of an episode onwards that string is empty: the chunk's own content is
    not in it. *)
Theorem negative_window_gives_empty_text (chunk_list : list (list string))
    (w ne : Z) (key : string) :
  w < 0 → chunk_list ≠ [] →
  ∃ out,
    create_expanded_content None (Some (text_chunks chunk_list)) w ne key
      = Ok out
    ∧ Forall2 (λ (g : list string) (o : list string),
                 length o = length g ∧
                 ∀ i : nat, - w - 1 ≤ Z.of_nat i → (i < length g)%nat →
                            o !! i = Some "")
        chunk_list out.
Proof.
  intros Hw Hne. eexists. split.
  - rewrite create_from_text_chunks by done. apply expand_all_text.
  - apply Forall2_fmap_r, Forall_Forall2_diag, Forall_forall.
    intros g _. split; [by rewrite length_fmap, length_seq|].
    intros i Hi Hlen. rewrite list_lookup_fmap, lookup_seq_lt by done. simpl.
    by rewrite py_slice_negative_window.
Qed.

Lemma negative_window_gives_empty_text_witness :
  -1 < 0 ∧ [["a"; "b"]; ["c"]] ≠ [] ∧
  create_expanded_content None (Some (text_chunks [["a"; "b"]; ["c"]])) (-1)
    193 "video_id" = Ok [[""; ""]; [""]].
Proof.
  split; [lia|]. split; [discriminate|].
  destruct (negative_window_gives_empty_text [["a"; "b"]; ["c"]] (-1) 193
              "video_id") as (out & Hout & _); [lia|discriminate|].
  rewrite Hout. vm_compute in Hout. by injection Hout as <-.
Defined.

(** With a window size below -1 the first positions of a long episode get
    a slice counted from the end of the episode. *)
Example negative_window_wraps_around :
  create_expanded_content None
    (Some (text_chunks [["a"; "b"; "c"; "d"; "e"; "f"]])) (-2) 193 "video_id"
  = Ok [["c d e"; ""; ""; ""; ""; ""]].
Proof. reflexivity. Qed.

Lemma py_slice_whole {A} (l : list A) (w : Z) (i : nat) :
  (i < length l)%nat → Z.of_nat (length l) ≤ w + 1 →
  py_slice l (Z.max 0 (Z.of_nat i - w)) (Z.of_nat i + w + 1) = l.
Proof.
  intros Hi Hlen. unfold py_slice, slice_bound.
  destruct (Z.ltb_spec (Z.max 0 (Z.of_nat i - w)) 0) as [?|_]; [lia|].
  destruct (Z.ltb_spec (Z.of_nat i + w + 1) 0) as [?|_]; [lia|].
  replace (Z.to_nat (Z.min (Z.max 0 (Z.of_nat i - w)) _)) with 0%nat by lia.
  rewrite drop_0. apply take_ge. lia.
Qed.

(** X10. When the window size is at least the episode length minus one,
    every chunk of the episode gets the same expanded content: the whole
    episode joined with single spaces. *)
Theorem wide_window_gives_whole_episode (chunk_list : list (list string))
    (w ne : Z) (key : string) :
  chunk_list ≠ [] →
  Forall (λ g : list string, Z.of_nat (length g) ≤ w + 1) chunk_list →
  create_expanded_content None (Some (text_chunks chunk_list)) w ne key
  = Ok ((λ g, replicate (length g) (join_strings " " g)) <$> chunk_list).
Proof.
  intros Hne Hwide. rewrite create_from_text_chunks by done.
  rewrite expand_all_text. f_equal.
  apply Forall_fmap_ext_1. eapply Forall_impl; [exact Hwide|].
  intros g Hg. simpl in Hg.
  etrans; [apply (const_fmap _ _ (join_strings " " g))|by rewrite length_seq].
  intros j k Hk. apply lookup_seq in Hk as [-> Hj]. simpl.
  by rewrite py_slice_whole.
Qed.

Lemma wide_window_gives_whole_episode_witness :
  [["a"; "b"; "c"]; ["d"]] ≠ [] ∧
  Forall (λ g : list string, Z.of_nat (length g) ≤ 2 + 1)
    [["a"; "b"; "c"]; ["d"]] ∧
  create_expanded_content None (Some (text_chunks [["a"; "b"; "c"]; ["d"]])) 2
    193 "video_id"
  = Ok [["a b c"; "a b c"; "a b c"]; ["d"]].
Proof.
  assert (Forall (λ g : list string, Z.of_nat (length g) ≤ 2 + 1)
            [["a"; "b"; "c"]; ["d"]]) as Hwide
    by (repeat constructor; simpl; lia).
  split; [discriminate|]. split; [exact Hwide|].
  apply (wide_window_gives_whole_episode [["a"; "b"; "c"]; ["d"]] 2 193
           "video_id"); [discriminate|exact Hwide].
Defined.



(** X12. The decomposition of a sequence into maximal runs of equal keys is
    unique, and it is what the Grouper returns: whenever [runs] are maximal
    runs that concatenate to [data], [groupby_episode data] returns exactly
    these runs. *)
Theorem grouper_returns_the_maximal_runs (data : list record) (key : string)
    (runs : list (pyval * list record)) :
  maximal_runs key runs → concat (runs.*2) = data →
  groupby_episode data key = Ok (runs.*2)
  ∧ ∀ runs', maximal_runs key runs' → concat (runs'.*2) = data → runs' = runs.
Proof.
  intros Hmax Hcat. split.
  - rewrite <- Hcat. by apply groupby_episode_concat_runs.
  - intros runs' Hmax' Hcat'.
    pose proof (groupby_concat_runs key runs Hmax) as Hg.
    pose proof (groupby_concat_runs key runs' Hmax') as Hg'.
    rewrite Hcat in Hg. rewrite Hcat' in Hg'. congruence.
Qed.

Lemma grouper_returns_the_maximal_runs_witness :
  let a := chunk_record (PStr "ep1") "a" in
  let b := chunk_record (PStr "ep2") "b" in
  let runs := [(PStr "ep1", [a; a]); (PStr "ep2", [b]); (PStr "ep1", [a])] in
  maximal_runs "video_id" runs ∧ concat (runs.*2) = [a; a; b; a] ∧
  groupby_episode [a; a; b; a] "video_id" = Ok [[a; a]; [b]; [a]].
Proof.
  intros a b runs.
  assert (maximal_runs "video_id" runs) as Hmax
    by (apply (bool_decide_unpack _); vm_compute; exact I).
  split; [exact Hmax|]. split; [reflexivity|].
  apply (grouper_returns_the_maximal_runs [a; a; b; a] "video_id" runs);
    [exact Hmax|reflexivity].
Defined.

Lemma nonempty_groups_count {A} (ls : list (list A)) :
  Forall (λ l, l ≠ []) ls → (length ls ≤ length (concat ls))%nat.
Proof.
  induction 1 as [|l ls Hl _ IH]; simpl; [done|].
  rewrite length_app. destruct l; [done|]. simpl. lia.
Qed.

(** X13. On non-empty records that all carry the key the Grouper returns
    at least one and at most as many groups as there are records; so a
    [num_episodes] above the number of records always fails the count
    check. *)
Theorem group_count_bounds (data : list record)
    (chunk_list : option (list (list pyval))) (w ne : Z) (key : string) :
  data ≠ [] → Forall (has_key key) data →
  ∃ episodes,
    groupby_episode data key = Ok episodes
    ∧ (1 ≤ length episodes ≤ length data)%nat
    ∧ (Z.of_nat (length data) < ne →
       create_expanded_content (Some data) chunk_list w ne key
         = Raise AssertionError).
Proof.
  intros Hne Hkeys.
  destruct (proj2 (groupby_episode_returns_iff data key) Hkeys) as [episodes Hg].
  exists episodes. split; [done|].
  destruct (groupby_episode_ok_concat _ _ _ Hg) as [Hcat Hnonempty].
  pose proof (nonempty_groups_count _ Hnonempty) as Hle. rewrite Hcat in Hle.
  assert (1 ≤ length episodes)%nat as Hge.
  { destruct episodes; [|simpl; lia]. simpl in Hcat. congruence. }
  split; [lia|]. intros Hmany. destruct data as [|d ds]; [done|].
  rewrite create_from_data, Hg. cbn [bind].
  destruct (Z.eqb_spec (Z.of_nat (length episodes)) ne) as [Heq|_]; [|done].
  simpl in *. lia.
Qed.

Lemma group_count_bounds_witness :
  let data := [chunk_record (PStr "ep1") "a"; chunk_record (PStr "ep2") "b"] in
  data ≠ [] ∧ Forall (has_key "video_id") data ∧
  create_expanded_content (Some data) None 1 default_num_episodes "video_id"
    = Raise AssertionError.
Proof.
  intros data.
  assert (Forall (has_key "video_id") data) as Hkeys
    by (apply (bool_decide_unpack _); vm_compute; exact I).
  split; [discriminate|]. split; [exact Hkeys|].
  destruct (group_count_bounds data None 1 default_num_episodes "video_id")
    as (episodes & _ & _ & Hfail); [discriminate|exact Hkeys|].
  apply Hfail. vm_compute. reflexivity.
Defined.

Lemma adjacent_distinct_app (ks1 ks2 : list pyval) :
  adjacent_distinct ks1 → adjacent_distinct ks2 →
  (∀ a b, last ks1 = Some a → head ks2 = Some b → a ≠ b) →
  adjacent_distinct (ks1 ++ ks2).
Proof.
  induction ks1 as [|k1 [|k2 ks1] IH]; intros H1 H2 Hmid; [done|..].
  - destruct ks2 as [|b ks2]; [done|]. simpl. split; [|done]. by apply Hmid.
  - destruct H1 as [Hne H1]. change (k1 ≠ k2 ∧ adjacent_distinct ((k2 :: ks1) ++ ks2)).
    split; [done|]. apply IH; [done..|]. intros a b Ha Hb. by apply Hmid.
Qed.

Lemma runs_last_key (key : string) (runs : list (pyval * list record))
    (d : record) :
  Forall (is_run key) runs → last (concat (runs.*2)) = Some d →
  ∃ k, last (runs.*1) = Some k ∧ d !! key = Some k.
Proof.
  induction runs as [|[k g] runs _] using rev_ind; intros Hruns; [done|].
  apply Forall_app in Hruns as [_ [[Hne Hg] _]%Forall_cons_1].
  simpl in Hne, Hg. rewrite !fmap_app, concat_app. simpl. rewrite app_nil_r.
  rewrite last_snoc. intros Hlast. exists k. split; [done|].
  rewrite last_app in Hlast. destruct (last g) as [d'|] eqn:Hd'.
  - injection Hlast as ->. rewrite Forall_forall in Hg. apply Hg.
    apply last_Some in Hd' as [g' ->]. set_solver.
  - apply last_None in Hd'. done.
Qed.

Lemma runs_head_key (key : string) (runs : list (pyval * list record))
    (d : record) :
  Forall (is_run key) runs → head (concat (runs.*2)) = Some d →
  ∃ k, head (runs.*1) = Some k ∧ d !! key = Some k.
Proof.
  intros Hruns. destruct Hruns as [|[k g] runs [Hne Hg] _]; [done|].
  simpl in *. destruct g as [|x g]; [done|]. simpl. intros [= ->].
  exists k. split; [done|]. by apply Forall_cons in Hg as [Hx _].
Qed.

(** X14. Grouping composes over concatenation when the key changes at the
    seam: if the last record of [data1] and the first record of [data2]
    have different keys, the groups of [data1 ++ data2] are the groups of
    [data1] followed by the groups of [data2]. *)
Theorem grouping_of_appended_records (data1 data2 : list record)
    (key : string) (d1 d2 : record) :
  Forall (has_key key) data1 → Forall (has_key key) data2 →
  last data1 = Some d1 → head data2 = Some d2 → d1 !! key ≠ d2 !! key →
  ∃ g1 g2,
    groupby_episode data1 key = Ok g1 ∧ groupby_episode data2 key = Ok g2
    ∧ groupby_episode (data1 ++ data2) key = Ok (g1 ++ g2).
Proof.
  intros Hk1 Hk2 Hlast Hhead Hdiff.
  destruct (groupby_episode_runs data1 key Hk1) as (runs1 & Hg1 & Hcat1 & Hr1 & Ha1).
  destruct (groupby_episode_runs data2 key Hk2) as (runs2 & Hg2 & Hcat2 & Hr2 & Ha2).
  exists (runs1.*2), (runs2.*2). split; [done|]. split; [done|].
  rewrite <- Hcat1, <- Hcat2, <- concat_app, <- fmap_app.
  apply groupby_episode_concat_runs. split; [by apply Forall_app|].
  rewrite fmap_app. apply adjacent_distinct_app; [done..|].
  intros a b Ha Hb ->. rewrite <- Hcat1 in Hlast. rewrite <- Hcat2 in Hhead.
  destruct (runs_last_key key runs1 d1 Hr1 Hlast) as (k1 & Hk1' & Hd1).
  destruct (runs_head_key key runs2 d2 Hr2 Hhead) as (k2 & Hk2' & Hd2).
  congruence.
Qed.

Lemma grouping_of_appended_records_witness :
  let a := chunk_record (PStr "ep1") "a" in
  let b := chunk_record (PStr "ep2") "b" in
  Forall (has_key "video_id") [a; a] ∧ Forall (has_key "video_id") [b; a] ∧
  last [a; a] = Some a ∧ head [b; a] = Some b ∧
  a !! "video_id" ≠ b !! "video_id" ∧
  ∃ g1 g2,
    groupby_episode [a; a] "video_id" = Ok g1 ∧
    groupby_episode [b; a] "video_id" = Ok g2 ∧
    groupby_episode ([a; a] ++ [b; a]) "video_id" = Ok (g1 ++ g2).
Proof.
  intros a b.
  assert (Forall (has_key "video_id") [a; a]) as H1
    by (apply (bool_decide_unpack _); vm_compute; exact I).
  assert (Forall (has_key "video_id") [b; a]) as H2
    by (apply (bool_decide_unpack _); vm_compute; exact I).
  assert (a !! "video_id" ≠ b !! "video_id") as Hdiff
    by (apply (bool_decide_unpack _); vm_compute; exact I).
  split; [exact H1|]. split; [exact H2|]. split; [reflexivity|].
  split; [reflexivity|]. split; [exact Hdiff|].
  apply (grouping_of_appended_records [a; a] [b; a] "video_id" a b);
    [exact H1|exact H2|reflexivity|reflexivity|exact Hdiff].
Defined.

(** X15. Records that all carry the same key value form a single group,
    the input itself; a one-episode dataset therefore passes the count check
    only with [num_episodes = 1]. *)
Theorem single_episode_single_group (data : list record) (key : string)
    (k : pyval) (chunk_list : option (list (list pyval))) (w ne : Z) :
  data ≠ [] → Forall (λ d : record, d !! key = Some k) data →
  groupby_episode data key = Ok [data]
  ∧ (ne ≠ 1 →
     create_expanded_content (Some data) chunk_list w ne key
       = Raise AssertionError).
Proof.
  intros Hne Hsame.
  assert (groupby_episode data key = Ok [data]) as Hg.
  { pose proof (groupby_episode_concat_runs [(k, data)] key) as Hg.
    simpl in Hg. rewrite app_nil_r in Hg. apply Hg.
    split; [|done]. by repeat constructor. }
  split; [done|]. intros Hne1. destruct data as [|d ds]; [done|].
  rewrite create_from_data, Hg. cbn [bind length].
  destruct (Z.eqb_spec (Z.of_nat 1) ne) as [Heq|_]; [|done].
  lia.
Qed.

Lemma single_episode_single_group_witness :
  let a := chunk_record (PStr "ep1") "a" in
  let b := chunk_record (PStr "ep1") "b" in
  [a; b] ≠ [] ∧
  Forall (λ d : record, d !! "video_id" = Some (PStr "ep1")) [a; b] ∧
  groupby_episode [a; b] "video_id" = Ok [[a; b]].
Proof.
  intros a b.
  assert (Forall (λ d : record, d !! "video_id" = Some (PStr "ep1")) [a; b])
    as Hsame by (apply (bool_decide_unpack _); vm_compute; exact I).
  split; [discriminate|]. split; [exact Hsame|].
  apply (single_episode_single_group [a; b] "video_id" (PStr "ep1") None 1 1);
    [discriminate|exact Hsame].
Defined.

(** X16. With [flattened_content] and [data] bound to lists, the outcome
    of the length check is decided by the name [data_length] alone:
    [NameError] when it is unbound, otherwise a comparison of the flattened
    length with the value found there.  The length of [data] only ends up in
    [data_legnth]; whether the check passes does not depend on it. *)
Theorem azimuth_check_outcome (ns : namespace) (flat : list string)
    (data : list record) :
  ns !! "flattened_content" = Some (GStrings flat) →
  ns !! "data" = Some (GRecords data) →
  azimuth_check ns =
    match ns !! "data_length" with
    | None => Raise NameError
    | Some stale =>
        if bool_decide (GInt (Z.of_nat (length flat)) = stale)
        then Ok (<["data_legnth" := GInt (Z.of_nat (length data))]>
                  (<["flat_length" := GInt (Z.of_nat (length flat))]> ns))
        else Raise AssertionError
    end.
Proof.
  intros Hflat Hdata. destruct (ns !! "data_length") as [stale|] eqn:Hstale.
  - by apply azimuth_check_stale.
  - unfold azimuth_check, load. rewrite Hflat. cbn [bind py_len].
    rewrite lookup_insert_ne, Hdata by done. cbn [bind py_len].
    rewrite lookup_insert_ne, lookup_insert_eq by done. cbn [bind].
    by rewrite !lookup_insert_ne, Hstale by done.
Qed.

Lemma azimuth_check_outcome_witness :
  let r := chunk_record (PStr "ep1") "x" in
  let ns : namespace :=
    {[ "flattened_content" := GStrings ["x"; "y"];
       "data" := GRecords [r];
       "data_length" := GInt 2 ]} in
  ns !! "flattened_content" = Some (GStrings ["x"; "y"]) ∧
  ns !! "data" = Some (GRecords [r]) ∧
  ∃ ns', azimuth_check ns = Ok ns'.
Proof.
  intros r ns. split; [reflexivity|]. split; [reflexivity|].
  rewrite (azimuth_check_outcome ns ["x"; "y"] [r]); [|reflexivity..].
  vm_compute. eauto.
Defined.

(** X17. When the length check passes it has bound [flat_length] and
    [data_legnth] to integers and left every other name as it was; the value
    of [flat_length] is the one [data_length] already had before the check. *)
Theorem azimuth_check_frame (ns ns' : namespace) :
  azimuth_check ns = Ok ns' →
  (∃ n m, ns' !! "flat_length" = Some (GInt n)
          ∧ ns' !! "data_legnth" = Some (GInt m)
          ∧ ns !! "data_length" = Some (GInt n))
  ∧ ∀ name, name ≠ "flat_length" → name ≠ "data_legnth" →
            ns' !! name = ns !! name.
Proof.
  unfold azimuth_check.
  destruct (load ns "flattened_content") as [fc|e]; cbn [bind]; [|done].
  destruct (py_len fc) as [n|e]; cbn [bind]; [|done].
  destruct (load _ "data") as [data|e]; cbn [bind]; [|done].
  destruct (py_len data) as [m|e]; cbn [bind]; [|done].
  unfold load. rewrite lookup_insert_ne, lookup_insert_eq by done. cbn [bind].
  rewrite !lookup_insert_ne by done.
  destruct (ns !! "data_length") as [stale|] eqn:Hstale; cbn [bind]; [|done].
  unfold py_assert. case_bool_decide as Heq; cbn [bind]; [|done].
  intros [= <-]. subst stale. split.
  - exists n, m. rewrite lookup_insert_ne, !lookup_insert_eq by done. done.
  - intros name H1 H2. by rewrite !lookup_insert_ne.
Qed.

Lemma azimuth_check_frame_witness :
  let ns : namespace :=
    {[ "flattened_content" := GStrings ["x"];
       "data" := GRecords [];
       "data_length" := GInt 1 ]} in
  let ns' := <["data_legnth" := GInt 0]> (<["flat_length" := GInt 1]> ns) in
  azimuth_check ns = Ok ns' ∧ ns' !! "data" = ns !! "data".
Proof.
  intros ns ns'. split; [reflexivity|].
  apply (azimuth_check_frame ns ns'); [reflexivity|done|done].
Defined.

(** The assertion of the post-check on one record. *)
Lemma post_check_record (d : record) :
  (py_assert (negb (bool_decide
      (dict_get d "expanded_content" (PInt (-1)) = PInt (-1)))) = Ok tt
   ∧ ∃ v, d !! "expanded_content" = Some v ∧ v ≠ PInt (-1))
  ∨ (py_assert (negb (bool_decide
      (dict_get d "expanded_content" (PInt (-1)) = PInt (-1))))
       = Raise AssertionError
     ∧ (d !! "expanded_content" = None
        ∨ d !! "expanded_content" = Some (PInt (-1)))).
Proof.
  unfold dict_get. destruct (d !! "expanded_content") as [v|].
  - destruct (decide (v = PInt (-1))) as [->|Hne].
    + right. split; [done|]. by right.
    + left. rewrite bool_decide_eq_false_2 by done. split; [done|]. by exists v.
  - right. split; [done|]. by left.
Qed.

Lemma post_check_cons (d : record) (data : list record) :
  post_check (d :: data) =
  (check! py_assert (negb (bool_decide
      (dict_get d "expanded_content" (PInt (-1)) = PInt (-1)))) in
   post_check data).
Proof.
  unfold post_check. cbn [for_each].
  destruct (py_assert _) as [[]|e]; cbn [bind]; [|done].
  by destruct (for_each _ data).
Qed.

(** X18. The post-check passes exactly when every record has an
    [expanded_content] field whose value is not the integer -1, and
    otherwise fails with [AssertionError]: a record that does carry the field,
    with the value -1, is reported like a record without it. *)
Theorem post_check_passes_iff (data : list record) :
  (post_check data = Ok tt
   ↔ Forall (λ d : record, ∃ v, d !! "expanded_content" = Some v
                                ∧ v ≠ PInt (-1)) data)
  ∧ (post_check data = Raise AssertionError
     ↔ Exists (λ d : record, d !! "expanded_content" = None
                             ∨ d !! "expanded_content" = Some (PInt (-1)))
         data).
Proof.
  induction data as [|d data [IHok IHfail]].
  - split; [split; [constructor|done]|]. split; [done|]. by intros ?%Exists_nil.
  - rewrite post_check_cons.
    destruct (post_check_record d) as [[-> (v & Hv & Hne)]|[-> Hbad]];
      cbn [bind].
    + split.
      * rewrite IHok. split; [|by intros [_ ?]%Forall_cons].
        intros Hall. constructor; [by exists v|done].
      * rewrite IHfail. split; [by apply Exists_cons_tl|].
        intros [[?|?]|Hex]%Exists_cons; [congruence..|done].
    + split.
      * split; [done|]. intros [(v & Hv & Hne) _]%Forall_cons.
        destruct Hbad; congruence.
      * split; [|done]. intros _. by apply Exists_cons_hd.
Qed.

(** ** The identifier cache *)

Lemma doc_id_cache_from_outcome (items : list item) :
  ∀ start,
  (doc_id_cache_from start items = Raise KeyError
   ↔ Exists (λ it, item_properties it !! "doc_id" = None) items)
  ∧ ((∃ cache, doc_id_cache_from start items = Ok cache)
     ↔ Forall (λ it, is_Some (item_properties it !! "doc_id")) items).
Proof.
  induction items as [|it items IH]; intros cache; simpl.
  - split; [split; [done|by intros ?%Exists_nil]|]. split; [done|eauto].
  - unfold getitem. destruct (item_properties it !! "doc_id") as [k|] eqn:Hk;
      simpl.
    + destruct (IH (<[k := item_uuid it]> cache)) as [IHraise IHok]. split.
      * rewrite IHraise. split; [by apply Exists_cons_tl|].
        intros [?|?]%Exists_cons; [congruence|done].
      * rewrite IHok. split; [|by intros [_ ?]%Forall_cons].
        intros Hall. constructor; [by rewrite Hk|done].
    + split.
      * split; [|done]. intros _. by apply Exists_cons_hd.
      * split; [by intros [? ?]|]. intros [[? ?] _]%Forall_cons. congruence.
Qed.

(** X19. Building the identifier cache raises [KeyError] exactly when some
    object read from the collection has no [doc_id] property; it returns a
    cache exactly when every object has one. *)
Theorem doc_id_cache_key_error_iff (items : list item) :
  (doc_id_cache items = Raise KeyError
   ↔ Exists (λ it, item_properties it !! "doc_id" = None) items)
  ∧ ((∃ cache, doc_id_cache items = Ok cache)
     ↔ Forall (λ it, is_Some (item_properties it !! "doc_id")) items).
Proof. apply doc_id_cache_from_outcome. Qed.

(** The uuids of the items whose [doc_id] is [k], in reading order. *)
Lemma doc_id_cache_from_lookup (items : list item) (k : pyval) :
  ∀ start cache, doc_id_cache_from start items = Ok cache →
  cache !! k =
    match last (omap (λ it,
                   if decide (item_properties it !! "doc_id" = Some k)
                   then Some (item_uuid it) else None) items) with
    | Some u => Some u
    | None => start !! k
    end.
Proof.
  induction items as [|it items IH]; intros start cache; simpl.
  - by intros [= <-].
  - unfold getitem at 1.
    destruct (item_properties it !! "doc_id") as [k0|] eqn:Hk0; simpl; [|done].
    intros Hrest. rewrite (IH _ _ Hrest).
    destruct (decide (Some k0 = Some k)) as [[= ->]|Hne]; unfold omap.
    + destruct (list_omap _ _ _ items) as [|u us] eqn:Hm.
      * simpl. by rewrite lookup_insert_eq.
      * change (last (item_uuid it :: u :: us)) with (last (u :: us)).
        destruct (last (u :: us)) eqn:Hlast; [done|].
        by apply last_None in Hlast.
    + destruct (last _); [done|]. rewrite lookup_insert_ne; [done|congruence].
Qed.

(** X20. In the identifier cache a [doc_id] maps to the uuid of the last
    object read that carries it (an earlier object with the same [doc_id] is
    overwritten), and a [doc_id] that no object carries is not in the
    cache. *)
Theorem doc_id_cache_last_wins (items : list item)
    (cache : gmap pyval string) (k : pyval) :
  doc_id_cache items = Ok cache →
  cache !! k =
    last (omap (λ it,
            if decide (item_properties it !! "doc_id" = Some k)
            then Some (item_uuid it) else None) items).
Proof.
  intros Hc. rewrite (doc_id_cache_from_lookup items k ∅ cache Hc).
  by destruct (last _).
Qed.

Lemma doc_id_cache_last_wins_witness :
  let it (k u : string) := Item {[ "doc_id" := PStr k ]} u in
  let items := [it "d1" "u1"; it "d2" "u2"; it "d1" "u3"] in
  ∃ cache, doc_id_cache items = Ok cache ∧
           cache !! PStr "d1" = Some "u3" ∧ cache !! PStr "d3" = None.
Proof.
  intros it items.
  destruct (doc_id_cache items) as [cache|e] eqn:Hc; [|by vm_compute in Hc].
  exists cache. split; [done|].
  by rewrite !(doc_id_cache_last_wins items cache _ Hc).
Defined.

Lemma doc_id_cache_from_dom (items : list item) :
  ∀ start cache, doc_id_cache_from start items = Ok cache →
  dom cache =
  dom start ∪ list_to_set (omap (λ it, item_properties it !! "doc_id") items).
Proof.
  induction items as [|it items IH]; intros start cache; simpl.
  - intros [= <-]. set_solver.
  - unfold getitem at 1.
    destruct (item_properties it !! "doc_id") as [k0|] eqn:Hk0; simpl; [|done].
    intros Hrest. rewrite (IH _ _ Hrest), dom_insert_L. set_solver.
Qed.

Lemma doc_id_cache_from_unique (items : list item) :
  ∀ start cache, doc_id_cache_from start items = Ok cache →
  NoDup (omap (λ it, item_properties it !! "doc_id") items) →
  Forall (λ it, ∃ k, item_properties it !! "doc_id" = Some k
                     ∧ cache !! k = Some (item_uuid it)) items
  ∧ ∀ k, k ∉ omap (λ it, item_properties it !! "doc_id") items →
         cache !! k = start !! k.
Proof.
  induction items as [|it items IH]; intros start cache; simpl.
  - intros [= <-] _. split; [constructor|done].
  - unfold getitem at 1.
    destruct (item_properties it !! "doc_id") as [k0|] eqn:Hk0; simpl; [|done].
    intros Hrest [Hfresh Hnodup]%NoDup_cons.
    destruct (IH _ _ Hrest Hnodup) as [Hall Hother]. split.
    + constructor; [|done]. exists k0. split; [done|].
      by rewrite (Hother k0 Hfresh), lookup_insert_eq.
    + intros k [Hne Hk]%not_elem_of_cons.
      by rewrite (Hother k Hk), lookup_insert_ne.
Qed.

Lemma size_list_to_set_le (ks : list pyval) :
  (size (list_to_set ks : gset pyval) ≤ length ks)%nat.
Proof.
  induction ks as [|k ks IH].
  - rewrite list_to_set_nil, size_empty. done.
  - rewrite list_to_set_cons. cbn [length].
    destruct (decide (k ∈ (list_to_set ks : gset pyval))) as [Hin|Hnotin].
    + replace ({[k]} ∪ list_to_set ks) with (list_to_set ks : gset pyval)
        by set_solver. lia.
    + rewrite size_union by set_solver. rewrite size_singleton. lia.
Qed.

(** X21. The identifier cache holds exactly the [doc_id]s read, so it never
    has more entries than objects were read; when the [doc_id]s are pairwise
    different it has one entry per object and maps the [doc_id] of every
    object to that object's uuid. *)
Theorem doc_id_cache_entries (items : list item) (cache : gmap pyval string) :
  doc_id_cache items = Ok cache →
  let doc_ids := omap (λ it, item_properties it !! "doc_id") items in
  dom cache = list_to_set doc_ids
  ∧ (size cache ≤ length items)%nat
  ∧ (NoDup doc_ids →
     size cache = length items
     ∧ Forall (λ it, ∃ k, item_properties it !! "doc_id" = Some k
                          ∧ cache !! k = Some (item_uuid it)) items).
Proof.
  intros Hc doc_ids.
  assert (length doc_ids = length items) as Hlen.
  { assert (Forall (λ it, is_Some (item_properties it !! "doc_id")) items) as Hall
      by (apply (doc_id_cache_from_outcome items ∅); eauto).
    subst doc_ids. clear Hc. unfold omap.
    induction Hall as [|it items [k Hk] _ IH]; [done|].
    simpl. rewrite Hk. simpl. by rewrite IH. }
  assert (dom cache = list_to_set doc_ids) as Hdom.
  { rewrite (doc_id_cache_from_dom items ∅ cache Hc). set_solver. }
  split; [done|]. split.
  - rewrite <- size_dom, Hdom, <- Hlen. apply size_list_to_set_le.
  - intros Hnodup. split.
    + by rewrite <- size_dom, Hdom, size_list_to_set, Hlen.
    + by apply (doc_id_cache_from_unique items ∅ cache Hc).
Qed.

Lemma doc_id_cache_entries_witness :
  let it (k u : string) := Item {[ "doc_id" := PStr k ]} u in
  let items := [it "d1" "u1"; it "d2" "u2"] in
  ∃ cache, doc_id_cache items = Ok cache ∧ size cache = 2%nat.
Proof.
  intros it items.
  destruct (doc_id_cache items) as [cache|e] eqn:Hc; [|by vm_compute in Hc].
  exists cache. split; [done|].
  destruct (doc_id_cache_entries items cache Hc) as (_ & _ & Hunique).
  apply Hunique. vm_compute. repeat constructor; set_solver.
Defined.

(** X22. The records path is the chunk-list path after grouping and
    content extraction: when the groups of non-empty [data] pass the count
    check and their [content] fields are read into [chunks], the call on
    [data] gives what the call on the pre-grouped [chunks] gives, for every
    window size and whatever the contents are. *)
Theorem records_path_is_chunk_path_after_grouping (data : list record)
    (episodes : list (list record)) (chunks : list (list pyval))
    (chunk_list : option (list (list pyval))) (w ne' : Z) (key key' : string) :
  data ≠ [] → groupby_episode data key = Ok episodes →
  for_each (λ alist, for_each (λ d, getitem d "content") alist) episodes
    = Ok chunks →
  create_expanded_content (Some data) chunk_list w
    (Z.of_nat (length episodes)) key
  = create_expanded_content None (Some chunks) w ne' key'.
Proof.
  intros Hne Hg Hchunks. destruct data as [|d ds]; [done|].
  rewrite create_from_data, Hg. cbn [bind].
  rewrite Z.eqb_refl. cbn [py_assert bind]. unfold expand_groups.
  rewrite Hchunks. cbn [bind].
  destruct chunks as [|c cs]; [|by rewrite create_from_chunks].
  apply for_each_ok_length in Hchunks.
  apply groupby_episode_ok_concat in Hg as [Hcat _].
  destruct episodes; [done|]. done.
Qed.

Lemma records_path_is_chunk_path_after_grouping_witness :
  let a := chunk_record (PStr "ep1") "a" in
  let b := chunk_record (PStr "ep1") "b" in
  let c := chunk_record (PStr "ep2") "c" in
  [a; b; c] ≠ [] ∧
  groupby_episode [a; b; c] "video_id" = Ok [[a; b]; [c]] ∧
  create_expanded_content (Some [a; b; c]) None 1 2 "video_id"
  = create_expanded_content None (Some [[PStr "a"; PStr "b"]; [PStr "c"]]) 1
      193 "video_id".
Proof.
  intros a b c. split; [discriminate|]. split; [reflexivity|].
  apply (records_path_is_chunk_path_after_grouping [a; b; c] [[a; b]; [c]]
           [[PStr "a"; PStr "b"]; [PStr "c"]] None 1 193 "video_id" "video_id");
    [discriminate|reflexivity|reflexivity].
Defined.
